(** * raphii.co — the VRTI auto-walk calculator

    A shallow embedding of the numeric core of
    [src/components/vrti/AutoWalkCalculator.tsx]: the smoothing tick
    ([animate]), the speed composition ([baseSpeed],
    [postMultiplierSpeed], [effectiveOffset], [finalSpeed]) and the two
    state handlers [handleOverrideClick] and [handleMultiplierChange].

    The component computes on JavaScript numbers.  The functions are
    written once, over an interface [JsNumber] holding exactly the
    operations the component uses, and read at two instances:

    - [Q], exact rational arithmetic, where the general theorems on the
      speed composition and the tick are proved;
    - [float], IEEE 754 binary64 as JavaScript has it, where the
      functions are evaluated at the concrete inputs the theorems and
      counterexamples name, and where the snap of
      [handleMultiplierChange] is proved for every double.

    [overrideIndex] holds small integers only and is a [Z]. *)

From Stdlib Require Import ZArith QArith Qabs Qminmax Qpower Lqa Lia List Bool.
From Stdlib Require Import Uint63 PrimFloat.
From Stdlib Require Floats.
From Stdlib Require Import Btauto.
From Stdlib Require Ascii String.
Import String.StringSyntax.
Delimit Scope string_scope with string.
Bind Scope string_scope with String.string.
Import ListNotations.

Set Warnings "-inexact-float".

(** ** The operations of a JavaScript number the component uses *)

Class JsNumber (N : Type) : Type := {
  lit      : Q -> N;            (* a decimal literal of the source *)
  add      : N -> N -> N;       (* a + b *)
  sub      : N -> N -> N;       (* a - b *)
  mul      : N -> N -> N;       (* a * b *)
  div      : N -> N -> N;       (* a / b *)
  neg      : N -> N;            (* -a *)
  lt       : N -> N -> bool;    (* a < b *)
  ge       : N -> N -> bool;    (* a >= b *)
  Math_abs : N -> N;
  Math_min : N -> N -> N;
  Math_max : N -> N -> N
}.

Declare Scope js_scope.
Delimit Scope js_scope with js.
Infix "+" := add : js_scope.
Infix "-" := sub : js_scope.
Infix "*" := mul : js_scope.
Infix "/" := div : js_scope.
Notation "- a" := (neg a) : js_scope.
Infix "<?" := lt (at level 70, no associativity) : js_scope.
Infix ">=?" := ge (at level 70, no associativity) : js_scope.

(** ** The component, over any number type *)

Section AutoWalkCalculator.
Context {N : Type} `{JsNumber N}.
Local Open Scope js_scope.

Definition MAX_SPEED : N := lit 10.0.
Definition ANIMATION_SPEED : N := lit 0.01.
Definition MIN_FINAL_SPEED : N := lit 0.1.
Definition TEMP_OFFSET_AMOUNT : N := lit 0.25.
Definition MULTIPLIER_SNAP_THRESHOLD : N := lit 0.08.

Definition presets : list N := [lit 0.25; lit 0.5; lit 0.75; lit 1.0].

(** [overrideIndex >= 0 ? presets[overrideIndex] : null].  [None] is
    [null].  The state only ever holds -1, 0, 1, 2 or 3 (see
    [handleOverrideClick]); for an index above 3 JavaScript reads
    [undefined], which is outside this model, and every theorem on
    [override] is stated for the five indices of the state. *)
Definition override (overrideIndex : Z) : option N :=
  if (overrideIndex >=? 0)%Z
  then nth_error presets (Z.to_nat overrideIndex)
  else None.

(** One frame of [animate]: the function handed to [setCurrentSpeed]. *)
Definition animate (targetSpeed prev : N) : N :=
  let diff := targetSpeed - prev in
  if Math_abs diff <? lit 0.05 then targetSpeed
  else prev + diff * ANIMATION_SPEED.

(** [n] frames with the same [targetSpeed]. *)
Fixpoint animate_n (n : nat) (targetSpeed prev : N) : N :=
  match n with
  | O => prev
  | S k => animate_n k targetSpeed (animate targetSpeed prev)
  end.

Definition baseSpeed (currentSpeed : N) : N :=
  Math_min (currentSpeed / MAX_SPEED) (lit 1).

Definition postMultiplierSpeed
    (currentSpeed targetSpeed multiplier : N) (overrideIndex : Z) : N :=
  match override overrideIndex with
  | Some o =>
      if targetSpeed >=? lit 0.0 then o
      else Math_min (baseSpeed currentSpeed) o
  | None => baseSpeed currentSpeed * multiplier
  end.

(** The offset resolution, as a function of the post-multiplier speed. *)
Definition effectiveOffset (postMultiplier tempOffset : N) : N :=
  if tempOffset <? lit 0 then
    if postMultiplier >=? MIN_FINAL_SPEED
    then Math_max tempOffset (MIN_FINAL_SPEED - postMultiplier)
    else lit 0.0
  else tempOffset.

Definition finalSpeed
    (currentSpeed targetSpeed multiplier : N) (overrideIndex : Z)
    (tempOffset : N) : N :=
  let pm := postMultiplierSpeed currentSpeed targetSpeed multiplier
                                overrideIndex in
  Math_max (lit 0) (Math_min (lit 1) (pm + effectiveOffset pm tempOffset)).

(** The value [handleMultiplierChange v] passes to [setMultiplier]. *)
Definition handleMultiplierChange (v : N) : N :=
  if Math_abs (v - lit 1.0) <? MULTIPLIER_SNAP_THRESHOLD then lit 1.0
  else v.

(** The three values the hold buttons give [tempOffset]. *)
Definition handleSlowDown : N := - TEMP_OFFSET_AMOUNT.
Definition handleCatchUp : N := TEMP_OFFSET_AMOUNT.
Definition handleOffsetRelease : N := lit 0.
End AutoWalkCalculator.

(** The updater [handleOverrideClick] passes to [setOverrideIndex]. *)
Definition handleOverrideClick (prev : Z) : Z :=
  if (prev >=? 3)%Z then (-1)%Z else (prev + 1)%Z.

(** ** Exact rational arithmetic *)

(** Every double is a rational, but the code's operations round and
    these do not: a theorem proved at this instance speaks of the code
    up to that rounding.  What turns on a value sitting on the threshold
    of a comparison, the snap of the multiplier and the colours of the
    bar, is stated at the [float] instance instead. *)

Definition Qlt_bool (a b : Q) : bool := negb (Qle_bool b a).

#[export] Instance Q_JsNumber : JsNumber Q := {|
  lit q := q;
  add := Qplus;
  sub := Qminus;
  mul := Qmult;
  div := Qdiv;
  neg := Qopp;
  lt := Qlt_bool;
  ge a b := Qle_bool b a;
  Math_abs := Qabs;
  Math_min a b := if Qle_bool a b then a else b;
  Math_max a b := if Qle_bool a b then b else a
|}.

(** ** IEEE 754 binary64 *)

Module Binary64.
Local Open Scope float_scope.

(** A decimal literal [n/d] with [n] and [d] below 2^53 is the
    correctly rounded quotient of two exact integers. *)
Definition of_Q (q : Q) : float :=
  let m := of_uint63 (Uint63.of_Z (Z.abs (Qnum q))) in
  let d := of_uint63 (Uint63.of_Z (Zpos (Qden q))) in
  if (Qnum q <? 0)%Z then - (m / d) else m / d.

Definition is_neg_zero (x : float) : bool := (x =? 0) && (1 / x <? 0).

(** [Math.min] and [Math.max]: NaN if an argument is NaN, and -0
    below +0. *)
Definition fmin (a b : float) : float :=
  if is_nan a then a else if is_nan b then b
  else if a <? b then a else if b <? a then b
  else if is_neg_zero a then a else b.

Definition fmax (a b : float) : float :=
  if is_nan a then a else if is_nan b then b
  else if a <? b then b else if b <? a then a
  else if is_neg_zero a then b else a.

#[export] Instance float_JsNumber : JsNumber float := {|
  lit := of_Q;
  add := PrimFloat.add;
  sub := PrimFloat.sub;
  mul := PrimFloat.mul;
  div := PrimFloat.div;
  neg := PrimFloat.opp;
  lt := PrimFloat.ltb;
  ge a b := PrimFloat.leb b a;
  Math_abs := PrimFloat.abs;
  Math_min := fmin;
  Math_max := fmax
|}.
End Binary64.
Import Binary64.

Local Open Scope Q_scope.

(** ** The spec's vocabulary on exact numbers *)

(** [clamp(x, lo, hi)]. *)
Definition clamp (x lo hi : Q) : Q := Qmax lo (Qmin x hi).

(** The ranges the input controls enforce. *)
Definition speed_in_range (s : Q) : Prop := 0 <= s <= MAX_SPEED.
Definition override_in_range (i : Z) : Prop := (-1 <= i <= 3)%Z.

(** ** The rest of the component *)

(** [a === b] on numbers. *)
Class JsStrictEq (N : Type) : Type := strict_eq : N -> N -> bool.

#[export] Instance Q_JsStrictEq : JsStrictEq Q := Qeq_bool.
#[export] Instance float_JsStrictEq : JsStrictEq float := PrimFloat.eqb.

(** [holdingOffset], without its [null]. *)
Inductive Holding : Set := down | up.

(** The six [useState] cells of [AutoWalkCalculator] and what the user and
    the frame timer can do to them. *)
Module Widget.

Record State (N : Type) : Type := mkState {
  targetSpeed : N;
  currentSpeed : N;
  multiplier : N;
  overrideIndex : Z;
  tempOffset : N;
  holdingOffset : option Holding
}.
Arguments mkState {N}.
Arguments targetSpeed {N}.
Arguments currentSpeed {N}.
Arguments multiplier {N}.
Arguments overrideIndex {N}.
Arguments tempOffset {N}.
Arguments holdingOffset {N}.

Inductive Event (N : Type) : Type :=
| TargetSpeedChange (v : N)   (* the treadmill slider's onChange *)
| MultiplierChange (v : N)    (* the auto-walk slider's onChange *)
| OverrideClick
| SlowDown
| CatchUp
| OffsetRelease
| ResetTreadmill
| ResetVRTI
| AnimationFrame.
Arguments TargetSpeedChange {N}.
Arguments MultiplierChange {N}.
Arguments OverrideClick {N}.
Arguments SlowDown {N}.
Arguments CatchUp {N}.
Arguments OffsetRelease {N}.
Arguments ResetTreadmill {N}.
Arguments ResetVRTI {N}.
Arguments AnimationFrame {N}.

End Widget.

Section WidgetState.
Context {N : Type} `{JsNumber N} `{JsStrictEq N}.
Local Open Scope js_scope.

(** The initial values of the [useState] cells. *)
Definition initial : Widget.State N :=
  Widget.mkState (lit 5.0) (lit 5.0) (lit 1.0) (-1) (lit 0) None.

(** What each handler stores. *)
Definition step (s : Widget.State N) (e : Widget.Event N) : Widget.State N :=
  let '(Widget.mkState tgt cur m oi off hold) := s in
  match e with
  | Widget.TargetSpeedChange v => Widget.mkState v cur m oi off hold
  | Widget.MultiplierChange v =>
      Widget.mkState tgt cur (handleMultiplierChange v) oi off hold
  | Widget.OverrideClick =>
      Widget.mkState tgt cur m (handleOverrideClick oi) off hold
  | Widget.SlowDown => Widget.mkState tgt cur m oi handleSlowDown (Some down)
  | Widget.CatchUp => Widget.mkState tgt cur m oi handleCatchUp (Some up)
  | Widget.OffsetRelease => Widget.mkState tgt cur m oi handleOffsetRelease None
  | Widget.ResetTreadmill => Widget.mkState (lit 5.0) cur m oi off hold
  | Widget.ResetVRTI => Widget.mkState tgt cur (lit 1.0) (-1) off hold
  | Widget.AnimationFrame => Widget.mkState tgt (animate tgt cur) m oi off hold
  end.

Definition run (s : Widget.State N) (es : list (Widget.Event N))
  : Widget.State N := fold_left step es s.

(** The values computed on each render. *)
Definition isOverride (overrideIndex : Z) : bool :=
  match override overrideIndex with Some _ => true | None => false end.

Definition walkSpeed (s : Widget.State N) : N :=
  finalSpeed (Widget.currentSpeed s) (Widget.targetSpeed s)
             (Widget.multiplier s) (Widget.overrideIndex s)
             (Widget.tempOffset s).

(** [showReset] of the VRTI section. *)
Definition showResetVRTI (s : Widget.State N) : bool :=
  negb (strict_eq (Widget.multiplier s) (lit 1.0))
  || negb (Widget.overrideIndex s =? -1)%Z.

(** [active] of the LED at position [i] of [presets.map]. *)
Definition LED_active (overrideIndex i : Z) : bool :=
  (overrideIndex >=? i)%Z && negb (overrideIndex =? -1)%Z.

Definition LEDs (overrideIndex : Z) : list bool :=
  map (fun i => LED_active overrideIndex (Z.of_nat i))
      (seq 0 (List.length presets)).

(** [SpeedOutput]: the bar's percentage and its colour; [pct > 88] is
    read as [88 < pct]. *)
Definition SpeedOutput_pct (value : N) : N :=
  Math_min (Math_max value (lit 0)) (lit 1) * lit 100.

Definition SpeedOutput_color (value : N) : String.string :=
  let pct := SpeedOutput_pct value in
  if lit 88 <? pct then "#ef4444"%string
  else if lit 75 <? pct then "#f59e0b"%string
  else "#22c55e"%string.

End WidgetState.

(** The values the two sliders can deliver ([min] and [max] of each).
    The sliders are disabled while an override is active; the events are
    admitted here in every state, which only adds states. *)
Definition valid_event (e : Widget.Event Q) : Prop :=
  match e with
  | Widget.TargetSpeedChange v => 0 <= v <= 10
  | Widget.MultiplierChange v => 0 <= v <= 2
  | _ => True
  end.

(** The states the widget can be in. *)
Inductive reachable : Widget.State Q -> Prop :=
| reachable_initial : reachable initial
| reachable_step (s : Widget.State Q) (e : Widget.Event Q) :
    reachable s -> valid_event e -> reachable (step s e).

(** ** [TreadmillTable.tsx]: the filtered, paged list of treadmills

    Strings are compared for equality and searched for substrings only,
    so [String.string] stands for the JavaScript string. *)

Module TreadmillTable.

Record Treadmill : Type := mkTreadmill {
  id : String.string;
  make : String.string;
  model : String.string;
  driver : String.string;
  features : list String.string;
  sharedNotes : list String.string;
  vendorApps : option (list (String.string * bool));
  source : option String.string          (* source?.url *)
}.

Definition getDriverDisplayName (driver : String.string) : String.string :=
  if String.eqb driver "Kingsmith Walking Pad"%string
  then "WalkingPad"%string
  else if String.eqb driver "Generic"%string then "Generic FTMS"%string
  else driver.

(** [hay.includes(needle)] on strings. *)
Fixpoint str_includes (needle hay : String.string) : bool :=
  String.prefix needle hay
  || match hay with
     | String.EmptyString => false
     | String.String _ rest => str_includes needle rest
     end.

(** [list.includes(x)] on arrays of strings. *)
Definition includes (x : String.string) (l : list String.string) : bool :=
  existsb (String.eqb x) l.

(** [toggleFeature] and [toggleDriver]: the updater handed to
    [setSelectedFeatures] and [setSelectedDrivers]. *)
Definition toggle (x : String.string) (prev : list String.string)
  : list String.string :=
  if includes x prev
  then filter (fun f => negb (String.eqb f x)) prev
  else prev ++ [x].

(** [array.slice(start, end)]. *)
Definition slice {A : Type} (start stop : Z) (l : list A) : list A :=
  let len := Z.of_nat (List.length l) in
  let from := if (start <? 0)%Z then Z.max (len + start) 0
              else Z.min start len in
  let to := if (stop <? 0)%Z then Z.max (len + stop) 0
            else Z.min stop len in
  firstn (Z.to_nat (Z.max (to - from) 0)) (skipn (Z.to_nat from) l).

Definition itemsPerPage : Z := 12.

(** [Math.ceil(length / itemsPerPage)]; the quotient of two small
    integers is rounded to a double before [Math.ceil], which does not
    move it across an integer. *)
Definition totalPages {A : Type} (filteredData : list A) : Z :=
  (Z.of_nat (List.length filteredData) + itemsPerPage - 1) / itemsPerPage.

Definition paginatedData {A : Type} (filteredData : list A) (page : Z)
  : list A :=
  slice ((page - 1) * itemsPerPage) (page * itemsPerPage) filteredData.

(** [Array.from({ length: totalPages }, (_, i) => i + 1)], the page
    buttons. *)
Definition pageNumbers (totalPages : Z) : list Z :=
  map (fun i => (Z.of_nat i + 1)%Z) (seq 0 (Z.to_nat totalPages)).

(** The page [handlePageChange newPage] leaves in the state. *)
Definition handlePageChange (totalPages page newPage : Z) : Z :=
  if (newPage >=? 1)%Z && (newPage <=? totalPages)%Z then newPage else page.

(** What a property of one of the two count objects can hold, or a read
    of it can give: a number; a member inherited from [Object.prototype]
    (a function, or under [__proto__] the prototype itself); or the
    string such a member becomes under [+ 1], its text followed by one
    ["1"] for each [+ 1] since. *)
Inductive JsValue : Type :=
| Num (n : nat)
| Member (k : String.string)
| Text (k : String.string) (ones : nat).

(** The property names of [Object.prototype], which an object created by
    [{}] inherits. *)
Definition Object_prototype : list String.string :=
  ["constructor"; "hasOwnProperty"; "isPrototypeOf"; "propertyIsEnumerable";
   "toLocaleString"; "toString"; "valueOf"; "__proto__";
   "__defineGetter__"; "__defineSetter__"; "__lookupGetter__";
   "__lookupSetter__"]%string.

Definition inherited (k : String.string) : bool := includes k Object_prototype.

(** The own properties of a count object, in the order of their
    creation. *)
Fixpoint own (k : String.string) (counts : list (String.string * JsValue))
  : option JsValue :=
  match counts with
  | [] => None
  | (k', v) :: rest => if String.eqb k' k then Some v else own k rest
  end.

(** [counts[k]]: the own property, else the inherited member, else
    [undefined], which is [None]. *)
Definition get (k : String.string) (counts : list (String.string * JsValue))
  : option JsValue :=
  match own k counts with
  | Some v => Some v
  | None => if inherited k then Some (Member k) else None
  end.

(** [(x || 0) + 1]: [undefined] and 0 count as 0; a function, an object
    and a string are truthy, and [+ 1] appends ["1"] to their text. *)
Definition or_0_plus_1 (x : option JsValue) : JsValue :=
  match x with
  | None => Num 1
  | Some (Num n) => Num (S n)
  | Some (Member k) => Text k 1
  | Some (Text k ones) => Text k (S ones)
  end.

Fixpoint set_own (k : String.string) (v : JsValue)
    (counts : list (String.string * JsValue))
  : list (String.string * JsValue) :=
  match counts with
  | [] => [(k, v)]
  | (k', v') :: rest =>
      if String.eqb k' k then (k', v) :: rest
      else (k', v') :: set_own k v rest
  end.

(** [counts[k] = v] for a [v] that is not an object.  The members of
    [Object.prototype] are writable, so the assignment makes or updates
    an own property, except under [__proto__], whose setter ignores what
    is not an object. *)
Definition set (k : String.string) (v : JsValue)
    (counts : list (String.string * JsValue))
  : list (String.string * JsValue) :=
  if String.eqb k "__proto__" then counts else set_own k v counts.

(** [counts[k] = (counts[k] || 0) + 1] on a [Record<string, number>]
    that began as [{}]. *)
Definition bump (k : String.string) (counts : list (String.string * JsValue))
  : list (String.string * JsValue) :=
  set k (or_0_plus_1 (get k counts)) counts.

(** [stats.featureCounts] and [stats.driverCounts]. *)
Definition featureCounts (data : list Treadmill)
  : list (String.string * JsValue) :=
  fold_left
    (fun counts t => fold_left (fun c f => bump f c) (features t) counts)
    data [].

Definition driverCounts (data : list Treadmill)
  : list (String.string * JsValue) :=
  fold_left (fun counts t => bump (getDriverDisplayName (driver t)) counts)
            data [].

(** [counts[k]] is the number [n], nothing counted being [undefined]. *)
Definition reads (k : String.string) (c : list (String.string * JsValue))
    (n : nat) : Prop :=
  get k c = match n with O => None | S _ => Some (Num n) end.

(** [toLowerCase] on ASCII text: the letters A to Z are lowered, every
    other character is kept. *)
Definition lower_ascii (c : Ascii.ascii) : Ascii.ascii :=
  let n := Ascii.nat_of_ascii c in
  if ((65 <=? n) && (n <=? 90))%nat then Ascii.ascii_of_nat (n + 32) else c.

Fixpoint toLowerCase_ascii (s : String.string) : String.string :=
  match s with
  | String.EmptyString => String.EmptyString
  | String.String c rest =>
      String.String (lower_ascii c) (toLowerCase_ascii rest)
  end.

Section Filtering.
(** [String.prototype.toLowerCase], with the Unicode tables it reads. *)
Variable toLowerCase : String.string -> String.string.

(** The predicate of [filteredData]. *)
Definition matches (search : String.string)
    (selectedFeatures selectedDrivers : list String.string)
    (item : Treadmill) : bool :=
  let driverDisplay := getDriverDisplayName (driver item) in
  let matchesSearch :=
    str_includes (toLowerCase search) (toLowerCase (make item))
    || str_includes (toLowerCase search) (toLowerCase (model item))
    || str_includes (toLowerCase search) (toLowerCase driverDisplay) in
  let matchesFeatures :=
    (List.length selectedFeatures =? 0)%nat
    || forallb (fun f => includes f (features item)) selectedFeatures in
  let matchesDrivers :=
    (List.length selectedDrivers =? 0)%nat
    || includes driverDisplay selectedDrivers in
  matchesSearch && matchesFeatures && matchesDrivers.

Definition filteredData (data : list Treadmill) (search : String.string)
    (selectedFeatures selectedDrivers : list String.string)
  : list Treadmill :=
  filter (matches search selectedFeatures selectedDrivers) data.

(** The four state cells that decide which rows are shown. *)
Record TableState : Type := mkTableState {
  search : String.string;
  selectedFeatures : list String.string;
  selectedDrivers : list String.string;
  page : Z
}.

Inductive TableEvent : Type :=
| SearchChange (value : String.string)
| ToggleFeature (feature : String.string)
| ToggleDriver (driver : String.string)
| ClearFilters
| PageChange (newPage : Z).

Definition table_initial : TableState := mkTableState ""%string [] [] 1.

Definition shown (data : list Treadmill) (s : TableState) : list Treadmill :=
  filteredData data (search s) (selectedFeatures s) (selectedDrivers s).

Definition table_step (data : list Treadmill) (s : TableState)
    (e : TableEvent) : TableState :=
  match e with
  | SearchChange value =>
      mkTableState value (selectedFeatures s) (selectedDrivers s) 1
  | ToggleFeature f =>
      mkTableState (search s) (toggle f (selectedFeatures s))
                   (selectedDrivers s) 1
  | ToggleDriver d =>
      mkTableState (search s) (selectedFeatures s)
                   (toggle d (selectedDrivers s)) 1
  | ClearFilters => mkTableState ""%string [] [] 1
  | PageChange newPage =>
      mkTableState (search s) (selectedFeatures s) (selectedDrivers s)
              (handlePageChange (totalPages (shown data s)) (page s) newPage)
  end.

Inductive table_reachable (data : list Treadmill) : TableState -> Prop :=
| table_reachable_initial : table_reachable data table_initial
| table_reachable_step (s : TableState) (e : TableEvent) :
    table_reachable data s -> table_reachable data (table_step data s e).

End Filtering.

(** A table of three treadmills for the examples. *)
Definition sample_data : list Treadmill :=
  [ mkTreadmill "1" "KingSmith" "WalkingPad P1" "Kingsmith Walking Pad"
                ["speedControl"; "steps"]%string [] None None;
    mkTreadmill "2" "Acme" "Runner 3" "Generic"
                ["speedControl"; "inclineControl"]%string
                ["Needs firmware 2.1"]%string None None;
    mkTreadmill "3" "Bolt" "T9" "Generic FTMS"
                ["steps"]%string [] None (Some "https://example.org"%string) ].

End TreadmillTable.

(** ** [scripts/generate-releases.js]: grouping releases into files

    The script's strings are sequences of UTF-16 code units; its regular
    expressions have no [u] flag and work unit by unit. *)

Module Releases.

Definition jsstring : Type := list N.

(** An ASCII literal of the source as code units. *)
Definition units (s : String.string) : jsstring :=
  map (fun c => N.of_nat (Ascii.nat_of_ascii c))
      (String.list_ascii_of_string s).

(** The fields the script reads of a release; [None] is [null]. *)
Record Release : Type := mkRelease {
  tag_name : jsstring;
  name : option jsstring;
  body : option jsstring
}.

Definition between (lo hi c : N) : bool := ((lo <=? c) && (c <=? hi))%N.

(** [\d] *)
Definition is_digit (c : N) : bool := between 48 57 c.

(** [[a-zA-Z0-9._-]] *)
Definition is_safe (c : N) : bool :=
  between 97 122 c || between 65 90 c || between 48 57 c
  || (c =? 46)%N || (c =? 95)%N || (c =? 45)%N.

(** [tag_name.replace(/[^a-zA-Z0-9._-]/g, "_")] *)
Definition safeName (tag : jsstring) : jsstring :=
  map (fun c => if is_safe c then c else 95%N) tag.

(** Case folding of the [i] flag; without the [u] flag a unit above 127
    never folds onto an ASCII letter. *)
Definition fold_case (c : N) : N :=
  if between 97 122 c then (c - 32)%N else c.

(** A literal of the pattern at the head of [s], ignoring case. *)
Fixpoint strip_ci (p s : jsstring) : option jsstring :=
  match p, s with
  | [], _ => Some s
  | _ :: _, [] => None
  | a :: p', c :: s' =>
      if (fold_case c =? fold_case a)%N then strip_ci p' s' else None
  end.

(** The longest run of digits at the head of [s], and the rest. *)
Fixpoint span_digits (s : jsstring) : jsstring * jsstring :=
  match s with
  | c :: rest =>
      if is_digit c
      then let (run, rest') := span_digits rest in (c :: run, rest')
      else ([], s)
  | [] => ([], [])
  end.

(** [(\d+)]: greedy; a shorter run is followed by a digit, so giving
    digits back never helps the [\.] or the end that follows. *)
Definition digits1 (s : jsstring) : option (jsstring * jsstring) :=
  match span_digits s with
  | ([], _) => None
  | (run, rest) => Some (run, rest)
  end.

(** [\.] *)
Definition dot (s : jsstring) : option jsstring :=
  match s with
  | c :: rest => if (c =? 46)%N then Some rest else None
  | [] => None
  end.

(** [(\d+)\.(\d+)\.(\d+)] at the head of [s]: the first two groups. *)
Definition version_core (s : jsstring) : option (jsstring * jsstring) :=
  match digits1 s with
  | Some (major, s1) =>
      match dot s1 with
      | Some s2 =>
          match digits1 s2 with
          | Some (minor, s3) =>
              match dot s3 with
              | Some s4 =>
                  match digits1 s4 with
                  | Some _ => Some (major, minor)
                  | None => None
                  end
              | None => None
              end
          | None => None
          end
      | None => None
      end
  | None => None
  end.

(** [(?:p)?] followed by [k]: first with [p], then without. *)
Definition optional {R : Type} (p : jsstring)
    (k : jsstring -> option R) (s : jsstring) : option R :=
  match strip_ci p s with
  | Some s' => match k s' with Some r => Some r | None => k s end
  | None => k s
  end.

(** [/(?:vrti-)?v?(\d+)\.(\d+)\.(\d+)/i] at the head of [s]. *)
Definition match_here (s : jsstring) : option (jsstring * jsstring) :=
  optional (units "vrti-") (optional (units "v") version_core) s.

(** [versionRegex.exec(tag)]: the leftmost match. *)
Fixpoint exec (s : jsstring) : option (jsstring * jsstring) :=
  match match_here s with
  | Some r => Some r
  | None => match s with
            | [] => None
            | _ :: rest => exec rest
            end
  end.

(** The key a release is grouped under. *)
Definition keyOf (release : Release) : jsstring :=
  match exec (tag_name release) with
  | Some (major, minor) => major ++ units "." ++ minor
  | None => units "other"
  end.

Definition jsstring_eqb (a b : jsstring) : bool :=
  if list_eq_dec N.eq_dec a b then true else false.

(** [if (!groups[key]) groups[key] = []; groups[key].push(release)] on
    an object whose keys keep their insertion order (a key here is
    "other" or holds a dot: no array index, no inherited property). *)
Fixpoint push (key : jsstring) (release : Release)
    (groups : list (jsstring * list Release))
  : list (jsstring * list Release) :=
  match groups with
  | [] => [(key, [release])]
  | (k, rs) :: rest =>
      if jsstring_eqb k key then (k, rs ++ [release]) :: rest
      else (k, rs) :: push key release rest
  end.

Definition group (releases : list Release)
  : list (jsstring * list Release) :=
  fold_left (fun groups r => push (keyOf r) r groups) releases [].

(** [groups[key]], with [[]] for a key that is not there. *)
Fixpoint members (key : jsstring) (groups : list (jsstring * list Release))
  : list Release :=
  match groups with
  | [] => []
  | (k, rs) :: rest => if jsstring_eqb k key then rs else members key rest
  end.

End Releases.

(** The source's literals, read in binary64, are the doubles JavaScript
    parses them to. *)
Lemma binary64_constants :
  (MAX_SPEED = 10 /\ ANIMATION_SPEED = 0.01 /\ MIN_FINAL_SPEED = 0.1 /\
   TEMP_OFFSET_AMOUNT = 0.25 /\ MULTIPLIER_SNAP_THRESHOLD = 0.08 /\
   presets = [0.25; 0.5; 0.75; 1] /\ lit 0.05 = 0.05 /\
   handleSlowDown = -0.25)%float.
Proof. vm_compute. repeat split. Qed.

(** ** The branches, for any number type

    These hold by the shape of the code alone, so they hold for
    binary64 as they do for [Q], NaN included. *)

Section Branches.
Context {N : Type} `{JsNumber N}.
Local Open Scope js_scope.

Lemma animate_cases (targetSpeed prev : N) :
  animate targetSpeed prev
  = if Math_abs (targetSpeed - prev) <? lit 0.05 then targetSpeed
    else prev + (targetSpeed - prev) * lit 0.01.
Proof. reflexivity. Qed.

Lemma effectiveOffset_cases (postMultiplier tempOffset : N) :
  effectiveOffset postMultiplier tempOffset
  = match tempOffset <? lit 0, postMultiplier >=? lit 0.1 with
    | true, true => Math_max tempOffset (lit 0.1 - postMultiplier)
    | true, false => lit 0.0
    | false, _ => tempOffset
    end.
Proof.
  unfold effectiveOffset, MIN_FINAL_SPEED.
  destruct (tempOffset <? lit 0), (postMultiplier >=? lit 0.1); reflexivity.
Qed.

Lemma postMultiplierSpeed_pinned
    (currentSpeed targetSpeed multiplier : N) (overrideIndex : Z) (o : N) :
  override overrideIndex = Some o ->
  (targetSpeed >=? lit 0.0) = true ->
  postMultiplierSpeed currentSpeed targetSpeed multiplier overrideIndex = o.
Proof.
  intros Ho Ht. unfold postMultiplierSpeed. now rewrite Ho, Ht.
Qed.

Lemma postMultiplierSpeed_free
    (currentSpeed targetSpeed multiplier : N) (overrideIndex : Z) :
  override overrideIndex = None ->
  postMultiplierSpeed currentSpeed targetSpeed multiplier overrideIndex
  = baseSpeed currentSpeed * multiplier.
Proof.
  intros Ho. unfold postMultiplierSpeed. now rewrite Ho.
Qed.

End Branches.

(** ** Reading the comparisons of the [Q] instance *)

Lemma Qle_bool_reflect (a b : Q) : reflect (a <= b) (Qle_bool a b).
Proof. apply iff_reflect. symmetry. apply Qle_bool_iff. Qed.

Lemma Qlt_bool_reflect (a b : Q) : reflect (a < b) (Qlt_bool a b).
Proof.
  unfold Qlt_bool. destruct (Qle_bool_reflect b a); constructor.
  - now apply Qle_not_lt.
  - now apply Qnot_le_lt.
Qed.

Lemma Qabs_cases (x : Q) :
  (0 <= x /\ Qabs x == x) \/ (x <= 0 /\ Qabs x == - x).
Proof.
  destruct (Qlt_le_dec x 0) as [Hx | Hx].
  - right. split; [now apply Qlt_le_weak|].
    apply Qabs_neg. now apply Qlt_le_weak.
  - left. split; [assumption|]. now apply Qabs_pos.
Qed.

Lemma Qmax_cases (a b : Q) :
  (a <= b /\ Qmax a b == b) \/ (b <= a /\ Qmax a b == a).
Proof.
  destruct (Q.max_spec a b) as [[Hlt He] | [Hle He]]; [left | right];
    split; auto. now apply Qlt_le_weak.
Qed.

Lemma Qmin_cases (a b : Q) :
  (a <= b /\ Qmin a b == a) \/ (b <= a /\ Qmin a b == b).
Proof.
  destruct (Q.min_spec a b) as [[Hlt He] | [Hle He]]; [left | right];
    split; auto. now apply Qlt_le_weak.
Qed.

(** Unfold the component at the [Q] instance. *)
Ltac calc_unfold :=
  unfold finalSpeed, effectiveOffset, postMultiplierSpeed, baseSpeed,
    animate, handleMultiplierChange, handleSlowDown, handleCatchUp,
    handleOffsetRelease, clamp, speed_in_range, MAX_SPEED, ANIMATION_SPEED,
    MIN_FINAL_SPEED, TEMP_OFFSET_AMOUNT, MULTIPLIER_SNAP_THRESHOLD in *;
  cbn [lit add sub mul div neg lt ge Math_abs Math_min Math_max Q_JsNumber]
    in *.

Lemma Qdiv_MAX_SPEED (x : Q) : x / 10.0 == x * 0.1.
Proof. unfold Qdiv. apply Qmult_comp; reflexivity. Qed.

(** Split on every comparison, absolute value, [Qmax] and [Qmin] in
    sight, leaving linear facts. *)
Ltac calc_name t cases :=
  let v := fresh "v" in
  destruct cases as [[? ?] | [? ?]]; set (v := t) in *; clearbody v.

Ltac calc_cases :=
  repeat match goal with
  | |- context [Qlt_bool ?a ?b] => destruct (Qlt_bool_reflect a b)
  | |- context [Qle_bool ?a ?b] => destruct (Qle_bool_reflect a b)
  | H : context [Qlt_bool ?a ?b] |- _ => destruct (Qlt_bool_reflect a b)
  | H : context [Qle_bool ?a ?b] |- _ => destruct (Qle_bool_reflect a b)
  end;
  repeat match goal with
  | |- context [?x / 10.0] =>
      let v := fresh "v" in
      pose proof (Qdiv_MAX_SPEED x); set (v := x / 10.0) in *; clearbody v
  | H : context [?x / 10.0] |- _ =>
      let v := fresh "v" in
      pose proof (Qdiv_MAX_SPEED x); set (v := x / 10.0) in *; clearbody v
  end;
  repeat match goal with
  | |- context [Qabs ?x] => calc_name (Qabs x) (Qabs_cases x)
  | |- context [Qmax ?a ?b] => calc_name (Qmax a b) (Qmax_cases a b)
  | |- context [Qmin ?a ?b] => calc_name (Qmin a b) (Qmin_cases a b)
  | H : context [Qabs ?x] |- _ => calc_name (Qabs x) (Qabs_cases x)
  | H : context [Qmax ?a ?b] |- _ => calc_name (Qmax a b) (Qmax_cases a b)
  | H : context [Qmin ?a ?b] |- _ => calc_name (Qmin a b) (Qmin_cases a b)
  end.

(** What [override] reads at the five indices of the state. *)
Lemma override_values :
  override (-1) = None /\ override 0 = Some 0.25 /\ override 1 = Some 0.5 /\
  override 2 = Some 0.75 /\ override 3 = Some 1.0.
Proof. repeat split. Qed.

(** [handleOverrideClick] keeps the index among the five. *)
Lemma handleOverrideClick_in_range (i : Z) :
  override_in_range i -> override_in_range (handleOverrideClick i).
Proof.
  unfold override_in_range, handleOverrideClick.
  destruct (Z.geb_spec i 3); lia.
Qed.

(** ** The speed composition *)

(** C1: the offset resolution and the final clamp.  With a negative
    [tempOffset], a post-multiplier speed at or above [MIN_FINAL_SPEED]
    gives the offset [max(tempOffset, MIN_FINAL_SPEED - postMultiplier)]
    and one below it gives 0; a [tempOffset] that is not negative is kept;
    and [finalSpeed] is [clamp(postMultiplier + effectiveOffset, 0, 1)]. *)
Theorem effectiveOffset_finalSpeed_spec
    (currentSpeed targetSpeed multiplier : Q) (overrideIndex : Z)
    (tempOffset : Q) :
  override_in_range overrideIndex ->
  let pm :=
    postMultiplierSpeed currentSpeed targetSpeed multiplier overrideIndex in
  let eo := effectiveOffset pm tempOffset in
  (tempOffset < 0 -> MIN_FINAL_SPEED <= pm ->
     eo == Qmax tempOffset (0.1 - pm)) /\
  (tempOffset < 0 -> pm < MIN_FINAL_SPEED -> eo == 0) /\
  (0 <= tempOffset -> eo == tempOffset) /\
  finalSpeed currentSpeed targetSpeed multiplier overrideIndex tempOffset
    == clamp (pm + eo) 0 1.
Proof.
  intros _ pm eo. unfold finalSpeed. fold pm. subst eo. clearbody pm.
  repeat split; intros; calc_unfold; calc_cases; lra.
Qed.

Lemma effectiveOffset_finalSpeed_spec_witness :
  override_in_range (-1) /\
  (-0.25 < 0 /\ MIN_FINAL_SPEED <= postMultiplierSpeed 1.5 5 1 (-1) /\
   effectiveOffset (postMultiplierSpeed 1.5 5 1 (-1)) (-0.25)
     == Qmax (-0.25) (0.1 - postMultiplierSpeed 1.5 5 1 (-1))) /\
  (postMultiplierSpeed 0.5 5 1 (-1) < MIN_FINAL_SPEED /\
   effectiveOffset (postMultiplierSpeed 0.5 5 1 (-1)) (-0.25) == 0) /\
  (0 <= 0.25 /\
   effectiveOffset (postMultiplierSpeed 1.5 5 1 (-1)) 0.25 == 0.25).
Proof.
  assert (Hr : override_in_range (-1)) by (unfold override_in_range; lia).
  assert (Hneg : -0.25 < 0) by reflexivity.
  assert (Hhi : MIN_FINAL_SPEED <= postMultiplierSpeed 1.5 5 1 (-1))
    by (vm_compute; discriminate).
  assert (Hlo : postMultiplierSpeed 0.5 5 1 (-1) < MIN_FINAL_SPEED)
    by reflexivity.
  assert (Hpos : 0 <= 0.25) by (vm_compute; discriminate).
  split; [exact Hr|].
  split; [split; [exact Hneg | split; [exact Hhi|]]|].
  - exact (proj1 (effectiveOffset_finalSpeed_spec 1.5 5 1 (-1) (-0.25) Hr)
             Hneg Hhi).
  - split; (split; [assumption|]).
    + exact (proj1 (proj2
               (effectiveOffset_finalSpeed_spec 0.5 5 1 (-1) (-0.25) Hr))
               Hneg Hlo).
    + exact (proj1 (proj2 (proj2
               (effectiveOffset_finalSpeed_spec 1.5 5 1 (-1) 0.25 Hr)))
               Hpos).
Defined.

(** The three worked cases of the floor policy, with no override and
    multiplier 1.0: bases 1.0, 0.15 and 0.05 under [tempOffset] -0.25 give
    0.75, 0.10 and 0.05, in exact arithmetic and in binary64. *)
Lemma finalSpeed_floor_examples :
  (finalSpeed 10 5 1 (-1) (-0.25) == 0.75 /\
   finalSpeed 1.5 5 1 (-1) (-0.25) == 0.1 /\
   finalSpeed 0.5 5 1 (-1) (-0.25) == 0.05) /\
  (finalSpeed 10 5 1 (-1) (-0.25) = 0.75 /\
   finalSpeed 1.5 5 1 (-1) (-0.25) = 0.1 /\
   finalSpeed 0.5 5 1 (-1) (-0.25) = 0.05)%float.
Proof. repeat split; vm_compute; reflexivity. Qed.

(** C2: a post-multiplier speed at or above the floor 0.1 gives a final
    speed at or above 0.1, whatever the offset (the ranges of the speeds,
    the multiplier and the offset are not needed); with no override,
    multiplier 1.0, base 0.15 and [tempOffset] -0.25 the final speed is
    0.10, in exact arithmetic and in binary64 alike. *)
Theorem finalSpeed_floor :
  (forall (currentSpeed targetSpeed multiplier : Q) (overrideIndex : Z)
          (tempOffset : Q),
     override_in_range overrideIndex ->
     MIN_FINAL_SPEED
       <= postMultiplierSpeed currentSpeed targetSpeed multiplier
            overrideIndex ->
     MIN_FINAL_SPEED
       <= finalSpeed currentSpeed targetSpeed multiplier overrideIndex
            tempOffset) /\
  (forall currentSpeed targetSpeed : Q,
     baseSpeed currentSpeed == 0.15 ->
     finalSpeed currentSpeed targetSpeed 1.0 (-1) handleSlowDown == 0.1) /\
  (forall targetSpeed : float,
     baseSpeed 1.5%float = 0.15%float /\
     finalSpeed 1.5%float targetSpeed 1%float (-1) handleSlowDown
       = 0.1%float).
Proof.
  split; [|split].
  - intros cur tgt m oi off _. unfold finalSpeed.
    generalize (postMultiplierSpeed cur tgt m oi) as pm. intros pm Hpm.
    calc_unfold. calc_cases; lra.
  - intros cur tgt Hbase. unfold finalSpeed, postMultiplierSpeed.
    cbn [override Z.geb Z.compare].
    revert Hbase. generalize (baseSpeed cur) as b. intros b Hb.
    calc_unfold. calc_cases; lra.
  - intros tgt. split; vm_compute; reflexivity.
Qed.

Lemma finalSpeed_floor_witness :
  override_in_range (-1) /\
  MIN_FINAL_SPEED <= postMultiplierSpeed 1.5 5 1.0 (-1) /\
  MIN_FINAL_SPEED <= finalSpeed 1.5 5 1.0 (-1) (-0.25) /\
  baseSpeed 1.5 == 0.15 /\
  finalSpeed 1.5 5 1.0 (-1) handleSlowDown == 0.1.
Proof.
  assert (Hr : override_in_range (-1)) by (unfold override_in_range; lia).
  assert (Hp : MIN_FINAL_SPEED <= postMultiplierSpeed 1.5 5 1.0 (-1))
    by (vm_compute; discriminate).
  assert (Hb : baseSpeed 1.5 == 0.15) by reflexivity.
  split; [exact Hr|]. split; [exact Hp|].
  split; [exact (proj1 finalSpeed_floor 1.5 5 1.0 (-1)%Z (-0.25) Hr Hp)|].
  split; [exact Hb|].
  exact (proj1 (proj2 finalSpeed_floor) 1.5 5 Hb).
Defined.

(** C5: with [overrideIndex] 2 and a target speed in range the
    post-multiplier speed is the preset 0.75, the final speed is
    [clamp(0.75 + effectiveOffset, 0, 1)], and neither the multiplier nor
    the current speed has any influence on it. *)
Theorem finalSpeed_override_pin
    (currentSpeed targetSpeed multiplier tempOffset : Q) :
  speed_in_range targetSpeed ->
  postMultiplierSpeed currentSpeed targetSpeed multiplier 2 = 0.75 /\
  finalSpeed currentSpeed targetSpeed multiplier 2 tempOffset
    == clamp (0.75 + effectiveOffset 0.75 tempOffset) 0 1 /\
  (forall currentSpeed' multiplier' : Q,
     finalSpeed currentSpeed' targetSpeed multiplier' 2 tempOffset
     = finalSpeed currentSpeed targetSpeed multiplier 2 tempOffset).
Proof.
  intros [Hlo _].
  assert (Hpin : forall c m, postMultiplierSpeed c targetSpeed m 2 = 0.75).
  { intros c m. apply postMultiplierSpeed_pinned; [reflexivity|].
    cbn [ge lit Q_JsNumber]. apply Qle_bool_iff. lra. }
  split; [apply Hpin|]. split.
  - unfold finalSpeed. rewrite Hpin. calc_unfold. calc_cases; lra.
  - intros c' m'. unfold finalSpeed. now rewrite !Hpin.
Qed.

Lemma finalSpeed_override_pin_witness :
  speed_in_range 5 /\
  finalSpeed 3 5 1.7 2 (-0.25)
    == clamp (0.75 + effectiveOffset 0.75 (-0.25)) 0 1.
Proof.
  assert (Hr : speed_in_range 5) by (calc_unfold; lra).
  split; [exact Hr|].
  exact (proj1 (proj2 (finalSpeed_override_pin 3 5 1.7 (-0.25) Hr))).
Defined.

(** C9: for a current speed in range the base is
    [clamp(currentSpeed / MAX_SPEED, 0, 1)] and lies in [0, 1]. *)
Theorem baseSpeed_clamp (currentSpeed : Q) :
  speed_in_range currentSpeed ->
  baseSpeed currentSpeed == clamp (currentSpeed / MAX_SPEED) 0 1 /\
  0 <= baseSpeed currentSpeed <= 1.
Proof.
  intros Hr. calc_unfold. calc_cases; lra.
Qed.

Lemma baseSpeed_clamp_witness :
  speed_in_range 1.5 /\
  baseSpeed 1.5 == clamp (1.5 / MAX_SPEED) 0 1 /\ 0 <= baseSpeed 1.5 <= 1.
Proof.
  assert (Hr : speed_in_range 1.5) by (calc_unfold; lra).
  split; [exact Hr | exact (baseSpeed_clamp 1.5 Hr)].
Defined.

(** [baseSpeed] itself has no lower clamp: below the range it goes
    negative, so the range assumption of C9 is used. *)
Lemma baseSpeed_negative : baseSpeed (-1) == -0.1.
Proof. reflexivity. Qed.

(** C10: holding "Slow Down" never raises the final speed over the one
    with the offset released, and a negative [tempOffset] never resolves
    to a positive offset. *)
Theorem slow_down_never_increases :
  (forall (currentSpeed targetSpeed multiplier : Q) (overrideIndex : Z),
     override_in_range overrideIndex ->
     finalSpeed currentSpeed targetSpeed multiplier overrideIndex
                handleSlowDown
     <= finalSpeed currentSpeed targetSpeed multiplier overrideIndex
                   handleOffsetRelease) /\
  (forall postMultiplier tempOffset : Q,
     tempOffset < 0 -> effectiveOffset postMultiplier tempOffset <= 0).
Proof.
  split.
  - intros cur tgt m oi _. unfold finalSpeed.
    generalize (postMultiplierSpeed cur tgt m oi) as pm. intros pm.
    calc_unfold. calc_cases; lra.
  - intros pm off Hneg. calc_unfold. calc_cases; lra.
Qed.

Lemma slow_down_never_increases_witness :
  override_in_range 1 /\
  finalSpeed 7 5 1.2 1 handleSlowDown
    <= finalSpeed 7 5 1.2 1 handleOffsetRelease /\
  -0.25 < 0 /\ effectiveOffset 0.3 (-0.25) <= 0.
Proof.
  assert (Hr : override_in_range 1) by (unfold override_in_range; lia).
  assert (Hn : -0.25 < 0) by reflexivity.
  split; [exact Hr|].
  split; [exact (proj1 slow_down_never_increases 7 5 1.2 1%Z Hr)|].
  split; [exact Hn|].
  exact (proj2 slow_down_never_increases 0.3 (-0.25) Hn).
Defined.

(** ** The multiplier edit handler *)

(** The handler's test on binary64, through the specification of the
    primitive floats: a double is a sign, a mantissa and an exponent
    ([spec_float]), and [Prim2SF] carries comparison, subtraction and
    absolute value over to it. *)
Module SnapFacts.
Import Floats.
Local Open Scope Z_scope.

Lemma digits2_pos_iter (d n : positive) :
  digits2_pos (Pos.iter xO d n) = (digits2_pos d + n)%positive.
Proof.
  induction n as [| n IH] using Pos.peano_ind.
  - cbn. lia.
  - rewrite Pos.iter_succ. cbn [digits2_pos]. rewrite IH. lia.
Qed.

Lemma iter_xO_value (d n : positive) :
  Zpos (Pos.iter xO d n) = Zpos d * 2 ^ Zpos n.
Proof.
  induction n as [| n IH] using Pos.peano_ind.
  - cbn. lia.
  - rewrite Pos.iter_succ, Pos2Z.inj_xO, IH, Pos2Z.inj_succ.
    rewrite Z.pow_succ_r by lia. lia.
Qed.

Lemma digits2_pos_bounds (d : positive) :
  2 ^ (Zpos (digits2_pos d) - 1) <= Zpos d < 2 ^ Zpos (digits2_pos d).
Proof.
  induction d as [d IH | d IH |]; cbn [digits2_pos];
    [rewrite Pos2Z.inj_succ, (Pos2Z.inj_xI d)
    |rewrite Pos2Z.inj_succ, (Pos2Z.inj_xO d)
    |cbn; lia];
    (replace (Z.succ (Zpos (digits2_pos d)) - 1)
       with (Z.succ (Zpos (digits2_pos d) - 1)) by lia);
    rewrite !Z.pow_succ_r by lia;
    revert IH;
    generalize (2 ^ (Zpos (digits2_pos d) - 1))
               (2 ^ Zpos (digits2_pos d));
    intros; lia.
Qed.

(** A mantissa of fewer than 53 digits, at an exponent that keeps the
    result normal, is rounded to itself, shifted up to 53 digits. *)
Lemma binary_round_exact (s : bool) (d : positive) (e : Z) :
  let k := Zpos (digits2_pos d) in
  k < 53 -> -1074 <= k + e - 53 -> k + e - 53 <= 971 ->
  binary_round prec emax s d e
  = S754_finite s (Pos.iter xO d (Z.to_pos (53 - k))) (k + e - 53).
Proof.
  intros k Hk Hlo Hhi. unfold binary_round.
  fold k.
  assert (Hfexp : fexp prec emax (k + e) = k + e - 53).
  { unfold fexp, emin, prec, emax. lia. }
  rewrite Hfexp. unfold shl_align.
  replace (k + e - 53 - e) with (Zneg (Z.to_pos (53 - k))) by lia.
  unfold binary_round_aux, shr_fexp.
  cbn [Zdigits2 shr_record_of_loc].
  rewrite digits2_pos_iter.
  assert (Hd : Zpos (digits2_pos d + Z.to_pos (53 - k)) = 53)
    by (subst k; lia).
  rewrite Hd.
  assert (Hf2 : fexp prec emax (53 + (k + e - 53)) - (k + e - 53) = 0).
  { unfold fexp, emin, prec, emax. lia. }
  rewrite Hf2. cbn [shr shr_m loc_of_shr_record round_nearest_even].
  cbn [Zdigits2 shr_record_of_loc]. rewrite digits2_pos_iter, Hd, Hf2.
  cbn [shr shr_m].
  replace (k + e - 53 <=? emax - prec) with true; [reflexivity|].
  symmetry. apply Z.leb_le. unfold emax, prec. lia.
Qed.

Lemma compare_cont_Eq_spec (a b : positive) :
  CompareSpec (Zpos a = Zpos b) (Zpos a < Zpos b) (Zpos b < Zpos a)
              (Pos.compare_cont Eq a b).
Proof. exact (Z.compare_spec (Zpos a) (Zpos b)). Qed.

(** The four literals of the handler and of C4, as doubles. *)
Lemma snap_literals :
  Prim2SF 1 = S754_finite false 4503599627370496 (-52) /\
  Prim2SF 0.08 = S754_finite false 5764607523034235 (-56) /\
  Prim2SF 0.92 = S754_finite false 8286623314361713 (-53) /\
  Prim2SF 1.08 = S754_finite false 4863887597560136 (-52).
Proof. repeat split; vm_compute; reflexivity. Qed.

(** A difference [d * 2^e] below the double 0.08, held at the exponent of
    a double next to 1, is still below it after rounding. *)
Lemma small_below_threshold (s : bool) (d : positive) (e : Z) :
  e = -53 \/ e = -52 ->
  Zpos d * 2 ^ (e + 56) < 5764607523034235 ->
  SFltb (SFabs (binary_round prec emax s d e))
        (S754_finite false 5764607523034235 (-56)) = true.
Proof.
  intros He Hd.
  pose proof (digits2_pos_bounds d) as [Hlo Hhi].
  set (k := Zpos (digits2_pos d)) in *.
  assert (Hk1 : 1 <= k) by (subst k; lia).
  assert (Hk : k <= -3 - e).
  { destruct (Z_le_gt_dec k (-3 - e)) as [Hle | Hgt]; [exact Hle | exfalso].
    assert (Hpow : 2 ^ (-3 - e) <= 2 ^ (k - 1))
      by (apply Z.pow_le_mono_r; lia).
    revert Hlo Hpow. generalize (2 ^ (k - 1)). intros p Hlo Hpow.
    destruct He as [-> | ->].
    - change (2 ^ (-3 - -53)) with 1125899906842624 in Hpow.
      change (2 ^ (-53 + 56)) with 8 in Hd. lia.
    - change (2 ^ (-3 - -52)) with 562949953421312 in Hpow.
      change (2 ^ (-52 + 56)) with 16 in Hd. lia. }
  rewrite binary_round_exact by (fold k; lia). fold k.
  unfold SFabs, SFltb, SFcompare.
  destruct (Z.compare_spec (k + e - 53) (-56)) as [Heq | Hlt | Hgt];
    [|reflexivity|lia].
  destruct (compare_cont_Eq_spec (Pos.iter xO d (Z.to_pos (53 - k)))
              5764607523034235) as [Hc | Hc | Hc]; [|reflexivity|];
    exfalso; rewrite (iter_xO_value d (Z.to_pos (53 - k))) in Hc;
    replace (Zpos (Z.to_pos (53 - k))) with (e + 56) in Hc by lia;
    revert Hd Hc; generalize (Zpos d * 2 ^ (e + 56)); clear; intros; lia.
Qed.

(** A double [x] with 0.92 <= x < 1.08 has |x - 1| < 0.08, the four
    constants being the doubles of [snap_literals].  Below 1 the
    subtraction is exact at the exponent -53 and the mantissa of [x] is
    at least that of 0.92; from 1 on it is exact at the exponent -52 and
    the mantissa of [x] is below that of 1.08. *)
Lemma snap_test_sf (x : spec_float) :
  valid_binary x = true ->
  SFleb (S754_finite false 8286623314361713 (-53)) x = true ->
  SFltb x (S754_finite false 4863887597560136 (-52)) = true ->
  SFltb (SFabs (SF64sub x (S754_finite false 4503599627370496 (-52))))
        (S754_finite false 5764607523034235 (-56)) = true.
Proof.
  intros Hv Hle Hlt.
  destruct x as [s | s | | s m e]; try (destruct s; discriminate);
    try discriminate.
  destruct s; [discriminate|].
  unfold SFleb, SFltb, SFcompare in Hle, Hlt.
  cbn [valid_binary] in Hv. unfold bounded, canonical_mantissa in Hv.
  apply andb_prop in Hv as [Hcan _]. apply Z.eqb_eq in Hcan.
  pose proof (digits2_pos_bounds m) as [Hmlo Hmhi].
  destruct (Z.compare_spec (-53) e) as [He | He | He]; try discriminate.
  - subst e.
    assert (Hdig : Zpos (digits2_pos m) = 53)
      by (unfold fexp, emin, prec, emax in Hcan; lia).
    rewrite Hdig in Hmlo, Hmhi.
    change (2 ^ 53) with 9007199254740992 in Hmhi.
    assert (Hm : 8286623314361713 <= Zpos m).
    { destruct (compare_cont_Eq_spec 8286623314361713 m) as [Hc | Hc | Hc];
        try discriminate; lia. }
    change (SF64sub (S754_finite false m (-53))
                    (S754_finite false 4503599627370496 (-52)))
      with (binary_normalize prec emax
              (Zpos m - 9007199254740992) (-53) false).
    destruct (Zpos m - 9007199254740992) as [| d | d] eqn:Hsub;
      [lia | lia |].
    cbn [binary_normalize].
    apply small_below_threshold; [now left|].
    change (2 ^ (-53 + 56)) with 8. lia.
  - destruct (Z.compare_spec e (-52)) as [He' | He' | He'];
      try discriminate; [subst e | lia].
    assert (Hdig : Zpos (digits2_pos m) = 53)
      by (unfold fexp, emin, prec, emax in Hcan; lia).
    rewrite Hdig in Hmlo, Hmhi.
    change (2 ^ (53 - 1)) with 4503599627370496 in Hmlo.
    assert (Hm : Zpos m < 4863887597560136).
    { destruct (compare_cont_Eq_spec m 4863887597560136) as [Hc | Hc | Hc];
        try discriminate; lia. }
    change (SF64sub (S754_finite false m (-52))
                    (S754_finite false 4503599627370496 (-52)))
      with (binary_normalize prec emax
              (Zpos m - 4503599627370496) (-52) false).
    destruct (Zpos m - 4503599627370496) as [| d | d] eqn:Hsub;
      [reflexivity | | lia].
    cbn [binary_normalize].
    apply small_below_threshold; [now right|].
    change (2 ^ (-52 + 56)) with 16. lia.
Qed.

(** On doubles: every [v] with 0.92 <= v < 1.08 passes the handler's test
    [Math.abs(v - 1.0) < 0.08]. *)
Lemma snap_test (v : float) :
  (0.92 <=? v)%float = true -> (v <? 1.08)%float = true ->
  (abs (v - 1) <? 0.08)%float = true.
Proof.
  rewrite leb_spec, !ltb_spec, abs_spec, sub_spec.
  destruct snap_literals as (-> & -> & -> & ->).
  intros Hle Hlt.
  apply snap_test_sf; [apply Prim2SF_valid | exact Hle | exact Hlt].
Qed.

End SnapFacts.

(** C4, as stated, fails at the upper end of the interval: 1.08 is stored
    as 1.08, in exact arithmetic (|1.08 - 1.0| is 0.08, not below it) and
    in binary64 (where 1.08 - 1.0 evaluates to 0.08000000000000007). *)
Lemma handleMultiplierChange_1_08_kept :
  0.92 <= 1.08 <= 1.08 /\
  ~ handleMultiplierChange 1.08 == 1.0 /\
  handleMultiplierChange 1.08%float = 1.08%float /\
  (handleMultiplierChange 1.08%float =? 1)%float = false.
Proof.
  split; [split; vm_compute; discriminate|].
  split; [vm_compute; discriminate|].
  split; vm_compute; reflexivity.
Qed.

(** C4, amended: the interval is closed below and open above.  On
    JavaScript's numbers, the doubles, every value [v] with
    0.92 <= v < 1.08 is stored as exactly 1.0, the double 0.92 included;
    1.08, 0.91 and 1.09 are stored unchanged. *)
Theorem handleMultiplierChange_snap :
  (forall v : float,
     (0.92 <=? v)%float = true -> (v <? 1.08)%float = true ->
     handleMultiplierChange v = 1%float) /\
  (handleMultiplierChange 1.08 = 1.08 /\
   handleMultiplierChange 0.91 = 0.91 /\
   handleMultiplierChange 1.09 = 1.09)%float.
Proof.
  split.
  - intros v Hlo Hhi.
    unfold handleMultiplierChange, MULTIPLIER_SNAP_THRESHOLD.
    cbn [lit sub lt Math_abs float_JsNumber].
    change (of_Q 1.0) with 1%float. change (of_Q 0.08) with 0.08%float.
    now rewrite (SnapFacts.snap_test v Hlo Hhi).
  - repeat split; vm_compute; reflexivity.
Qed.

Lemma handleMultiplierChange_snap_witness :
  (0.92 <=? 0.95)%float = true /\ (0.95 <? 1.08)%float = true /\
  handleMultiplierChange 0.95%float = 1%float.
Proof.
  assert (Hlo : (0.92 <=? 0.95)%float = true) by reflexivity.
  assert (Hhi : (0.95 <? 1.08)%float = true) by reflexivity.
  split; [exact Hlo|]. split; [exact Hhi|].
  exact (proj1 handleMultiplierChange_snap 0.95%float Hlo Hhi).
Defined.

(** The handler on exact numbers: a value is snapped exactly when the
    test [Math.abs(v - 1.0) < 0.08] holds, and kept otherwise. *)
Lemma handleMultiplierChange_cases (v : Q) :
  (Qabs (v - 1.0) < 0.08 -> handleMultiplierChange v = 1.0) /\
  (0.08 <= Qabs (v - 1.0) -> handleMultiplierChange v = v).
Proof.
  unfold handleMultiplierChange, MULTIPLIER_SNAP_THRESHOLD.
  cbn [lit sub lt Math_abs Q_JsNumber].
  destruct (Qlt_bool_reflect (Qabs (v - 1.0)) 0.08) as [Hlt | Hge];
    split; intros Hc; try reflexivity; exfalso.
  - now apply (Qle_not_lt _ _ Hc).
  - now apply Hge.
Qed.

(** The lower end 0.92 is where the two readings part: the exact 0.92 is
    at distance 0.08 and kept, the double nearest to 0.92 gives
    0.92 - 1.0 = -0.07999999999999996 and is snapped. *)
Lemma handleMultiplierChange_0_92 :
  handleMultiplierChange 0.92 = 0.92 /\
  (0.92 - 1 = -0.07999999999999996 /\ handleMultiplierChange 0.92 = 1)%float.
Proof. repeat split; vm_compute; reflexivity. Qed.

(** ** The smoothing tick *)

Lemma animate_near (targetSpeed currentSpeed : Q) :
  Qabs (targetSpeed - currentSpeed) < 0.05 ->
  animate targetSpeed currentSpeed = targetSpeed.
Proof.
  intros Hnear. rewrite animate_cases.
  cbn [lit add sub mul lt Math_abs Q_JsNumber].
  destruct (Qlt_bool_reflect (Qabs (targetSpeed - currentSpeed)) 0.05);
    [reflexivity | contradiction].
Qed.

Lemma animate_far (targetSpeed currentSpeed : Q) :
  ~ Qabs (targetSpeed - currentSpeed) < 0.05 ->
  animate targetSpeed currentSpeed
  = currentSpeed + (targetSpeed - currentSpeed) * 0.01.
Proof.
  intros Hfar. rewrite animate_cases.
  cbn [lit add sub mul lt Math_abs Q_JsNumber].
  destruct (Qlt_bool_reflect (Qabs (targetSpeed - currentSpeed)) 0.05);
    [contradiction | reflexivity].
Qed.

(** C6: one tick snaps to the target when the distance is below 0.05 and
    otherwise moves a hundredth of the distance. *)
Theorem animate_spec (targetSpeed currentSpeed : Q) :
  (Qabs (targetSpeed - currentSpeed) < 0.05 ->
     animate targetSpeed currentSpeed = targetSpeed) /\
  (~ Qabs (targetSpeed - currentSpeed) < 0.05 ->
     animate targetSpeed currentSpeed
     = currentSpeed + (targetSpeed - currentSpeed) * 0.01).
Proof.
  split; [apply animate_near | apply animate_far].
Qed.

Lemma animate_spec_witness :
  (Qabs (5 - 4.96) < 0.05 /\ animate 5 4.96 = 5) /\
  (~ Qabs (5 - 2) < 0.05 /\ animate 5 2 = 2 + (5 - 2) * 0.01).
Proof.
  assert (Hnear : Qabs (5 - 4.96) < 0.05) by reflexivity.
  assert (Hfar : ~ Qabs (5 - 2) < 0.05) by (vm_compute; discriminate).
  split; (split; [assumption|]).
  - exact (proj1 (animate_spec 5 4.96) Hnear).
  - exact (proj2 (animate_spec 5 2) Hfar).
Defined.

(** C7: the speed after a tick lies between the speed before it and the
    target, ends included. *)
Theorem animate_between (targetSpeed currentSpeed : Q) :
  let next := animate targetSpeed currentSpeed in
  currentSpeed <= next <= targetSpeed \/ targetSpeed <= next <= currentSpeed.
Proof.
  intros next. subst next. calc_unfold. calc_cases; lra.
Qed.

(** *** Convergence *)

Lemma animate_fixed (targetSpeed : Q) :
  animate targetSpeed targetSpeed = targetSpeed.
Proof.
  apply animate_near.
  setoid_replace (targetSpeed - targetSpeed) with 0 by ring. reflexivity.
Qed.

Lemma animate_n_fixed (n : nat) (targetSpeed : Q) :
  animate_n n targetSpeed targetSpeed = targetSpeed.
Proof.
  induction n as [| n IH]; [reflexivity|].
  cbn [animate_n]. now rewrite animate_fixed.
Qed.

(** A tick that does not snap leaves 99% of the distance. *)
Lemma animate_distance (targetSpeed currentSpeed : Q) :
  ~ Qabs (targetSpeed - currentSpeed) < 0.05 ->
  Qabs (targetSpeed - animate targetSpeed currentSpeed)
    == 0.99 * Qabs (targetSpeed - currentSpeed).
Proof.
  intros Hfar. rewrite (animate_far _ _ Hfar).
  setoid_replace
    (targetSpeed - (currentSpeed + (targetSpeed - currentSpeed) * 0.01))
    with (0.99 * (targetSpeed - currentSpeed)) by ring.
  rewrite Qabs_Qmult. apply Qmult_comp; reflexivity.
Qed.

(** Once 0.99^n times the distance is below 0.05, n + 1 ticks reach the
    target. *)
Lemma animate_n_reaches (n : nat) (targetSpeed : Q) :
  forall currentSpeed : Q,
    Qabs (targetSpeed - currentSpeed) * 0.99 ^ Z.of_nat n < 0.05 ->
    animate_n (S n) targetSpeed currentSpeed = targetSpeed.
Proof.
  induction n as [| n IH]; intros cur Hd.
  - cbn [animate_n]. apply animate_near.
    change (0.99 ^ Z.of_nat 0) with 1 in Hd. lra.
  - change (animate_n (S (S n)) targetSpeed cur)
      with (animate_n (S n) targetSpeed (animate targetSpeed cur)).
    destruct (Qlt_le_dec (Qabs (targetSpeed - cur)) 0.05) as [Hnear | Hfar].
    + rewrite (animate_near _ _ Hnear).
      apply animate_n_fixed.
    + apply IH. rewrite animate_distance by (now apply Qle_not_lt).
      rewrite Nat2Z.inj_succ, <- Z.add_1_l in Hd.
      rewrite Qpower_plus in Hd by discriminate.
      change (0.99 ^ 1) with 0.99 in Hd.
      setoid_replace (0.99 * Qabs (targetSpeed - cur) * 0.99 ^ Z.of_nat n)
        with (Qabs (targetSpeed - cur) * (0.99 * 0.99 ^ Z.of_nat n)) by ring.
      exact Hd.
Qed.

(** In range the distance is at most [MAX_SPEED], and
    10 * 0.99^528 < 0.05. *)
Lemma speed_distance (targetSpeed currentSpeed : Q) :
  speed_in_range currentSpeed -> speed_in_range targetSpeed ->
  Qabs (targetSpeed - currentSpeed) <= 10.
Proof.
  intros Hc Ht. calc_unfold. calc_cases; lra.
Qed.

Lemma shrink_528 : 10 * 0.99 ^ 528 < 0.05.
Proof. vm_compute. reflexivity. Qed.

(** C8: from any current speed, ticking with a fixed target reaches the
    target exactly after finitely many ticks, both speeds in range (529
    ticks are always enough). *)
Theorem animate_converges (targetSpeed currentSpeed : Q) :
  speed_in_range currentSpeed -> speed_in_range targetSpeed ->
  exists n : nat,
    (n <= 529)%nat /\ animate_n n targetSpeed currentSpeed = targetSpeed.
Proof.
  intros Hc Ht. exists 529%nat. split; [lia|].
  apply (animate_n_reaches 528).
  apply Qle_lt_trans with (10 * 0.99 ^ 528); [|exact shrink_528].
  apply Qmult_le_compat_r; [now apply speed_distance|].
  vm_compute. discriminate.
Qed.

Lemma animate_converges_witness :
  speed_in_range 0 /\ speed_in_range 10 /\
  exists n : nat, (n <= 529)%nat /\ animate_n n 10 0 = 10.
Proof.
  assert (H0 : speed_in_range 0) by (calc_unfold; lra).
  assert (H10 : speed_in_range 10) by (calc_unfold; lra).
  split; [exact H0|]. split; [exact H10|].
  exact (animate_converges 10 0 H0 H10).
Defined.

(** The same run in binary64: from 0 to 10 the 529th tick is the one that
    snaps, and the way down from 10 to 0 ends as well. *)
Lemma animate_converges_binary64 :
  ((animate_n 528 10 0 <? 10) = true /\ animate_n 529 10 0 = 10 /\
   animate_n 529 0 10 = 0)%float.
Proof. repeat split; vm_compute; reflexivity. Qed.

(** ** The override toggle *)

(** C3, as stated, fails: four toggles from -1 stop at 3, the last
    preset, not at -1. *)
Lemma handleOverrideClick_four_from_off :
  handleOverrideClick
    (handleOverrideClick (handleOverrideClick (handleOverrideClick (-1))))
    <> (-1)%Z.
Proof. vm_compute. discriminate. Qed.

(** C3, amended: the toggle has five states; from -1 the fifth toggle
    is the first to return to -1 (the first four visit 0, 1, 2, 3), one
    toggle maps each [i] of 0, 1, 2 to [i + 1] and maps 3 to -1. *)
Theorem handleOverrideClick_cycle :
  map (fun n => Nat.iter n handleOverrideClick (-1)%Z) [1; 2; 3; 4; 5]%nat
    = [0; 1; 2; 3; -1]%Z /\
  (forall i, (0 <= i <= 2)%Z -> handleOverrideClick i = (i + 1)%Z) /\
  handleOverrideClick 3 = (-1)%Z.
Proof.
  split; [reflexivity|]. split; [|reflexivity].
  intros i Hi. unfold handleOverrideClick.
  destruct (Z.geb_spec i 3); lia.
Qed.

Lemma handleOverrideClick_cycle_witness :
  (0 <= 1 <= 2)%Z /\ handleOverrideClick 1 = (1 + 1)%Z.
Proof.
  split; [lia|].
  apply (proj1 (proj2 handleOverrideClick_cycle) 1%Z). lia.
Defined.

(** * The rest of the component *)

Ltac widget_unfold :=
  unfold walkSpeed, SpeedOutput_color in *; cbv zeta in *;
  unfold SpeedOutput_pct in *;
  cbn [Widget.targetSpeed Widget.currentSpeed Widget.multiplier
       Widget.overrideIndex Widget.tempOffset Widget.holdingOffset] in *;
  calc_unfold.

(** [finalSpeed] sees its first four arguments through
    [postMultiplierSpeed] only; [calc_pm] names that speed. *)
Ltac calc_pm :=
  unfold finalSpeed;
  repeat match goal with
  | |- context [postMultiplierSpeed ?c ?t ?m ?i] =>
      let pm := fresh "pm" in
      set (pm := postMultiplierSpeed c t m i) in *; clearbody pm
  end.

Lemma override_cases (i : Z) :
  override_in_range i ->
  i = (-1)%Z \/ i = 0%Z \/ i = 1%Z \/ i = 2%Z \/ i = 3%Z.
Proof. unfold override_in_range. lia. Qed.

Lemma override_exact :
  override (N:=Q) (-1) = None /\ override 0 = Some 0.25 /\
  override 1 = Some 0.5 /\ override 2 = Some 0.75 /\ override 3 = Some 1.0.
Proof. repeat split. Qed.

(** Split on the five indices and read [override] at each. *)
Ltac override_split Hr :=
  let H0 := fresh in let H1 := fresh in let H2 := fresh in
  let H3 := fresh in let H4 := fresh in
  destruct override_exact as (H0 & H1 & H2 & H3 & H4);
  destruct (override_cases _ Hr) as [-> | [-> | [-> | [-> | ->]]]];
  rewrite ?H0, ?H1, ?H2, ?H3, ?H4 in *;
  clear H0 H1 H2 H3 H4.

(** ** The composition as a whole *)

(** X1: the final speed is a number between 0 and 1, whatever the
    state. *)
Theorem finalSpeed_range
    (currentSpeed targetSpeed multiplier : Q) (overrideIndex : Z)
    (tempOffset : Q) :
  override_in_range overrideIndex ->
  0 <= finalSpeed currentSpeed targetSpeed multiplier overrideIndex tempOffset
    <= 1.
Proof.
  intros _. calc_pm. calc_unfold. calc_cases; lra.
Qed.

Lemma finalSpeed_range_witness :
  override_in_range 3 /\ 0 <= finalSpeed 20 5 2 3 0.25 <= 1.
Proof.
  assert (Hr : override_in_range 3) by (unfold override_in_range; lia).
  split; [exact Hr | exact (finalSpeed_range 20 5 2 3 0.25 Hr)].
Defined.

(** The post-multiplier speed grows with the current speed and with the
    multiplier. *)
Lemma postMultiplierSpeed_monotone
    (currentSpeed currentSpeed' targetSpeed multiplier multiplier' : Q)
    (overrideIndex : Z) :
  override_in_range overrideIndex ->
  0 <= currentSpeed <= currentSpeed' -> 0 <= multiplier <= multiplier' ->
  postMultiplierSpeed currentSpeed targetSpeed multiplier overrideIndex
  <= postMultiplierSpeed currentSpeed' targetSpeed multiplier' overrideIndex.
Proof.
  intros Hr Hc Hm. unfold postMultiplierSpeed.
  override_split Hr; calc_unfold; calc_cases; nra.
Qed.

(** The final speed grows with the post-multiplier speed. *)
Lemma finalSpeed_monotone_pm (pm pm' tempOffset : Q) :
  pm <= pm' ->
  Math_max 0 (Math_min 1 (pm + effectiveOffset pm tempOffset))
  <= Math_max 0 (Math_min 1 (pm' + effectiveOffset pm' tempOffset)).
Proof.
  intros Hpm. calc_unfold. calc_cases; lra.
Qed.

(** X2: a faster belt or a larger multiplier never gives a lower final
    speed, the rest of the state being the same. *)
Theorem finalSpeed_monotone
    (currentSpeed currentSpeed' targetSpeed multiplier multiplier' : Q)
    (overrideIndex : Z) (tempOffset : Q) :
  override_in_range overrideIndex ->
  0 <= currentSpeed <= currentSpeed' -> 0 <= multiplier <= multiplier' ->
  finalSpeed currentSpeed targetSpeed multiplier overrideIndex tempOffset
  <= finalSpeed currentSpeed' targetSpeed multiplier' overrideIndex
                tempOffset.
Proof.
  intros Hr Hc Hm. unfold finalSpeed.
  apply (finalSpeed_monotone_pm _ _ tempOffset).
  now apply postMultiplierSpeed_monotone.
Qed.

Lemma finalSpeed_monotone_witness :
  override_in_range (-1) /\ 0 <= 2 <= 3 /\ 0 <= 0.5 <= 1.5 /\
  finalSpeed 2 5 0.5 (-1) (-0.25) <= finalSpeed 3 5 1.5 (-1) (-0.25).
Proof.
  assert (Hr : override_in_range (-1)) by (unfold override_in_range; lia).
  assert (Hc : 0 <= 2 <= 3) by lra.
  assert (Hm : 0 <= 0.5 <= 1.5) by lra.
  repeat (split; [assumption|]).
  exact (finalSpeed_monotone 2 3 5 0.5 1.5 (-1) (-0.25) Hr Hc Hm).
Defined.

(** X3: an offset moves the final speed in its own direction and by no
    more than its own size: "Catch Up" never lowers the output, and
    neither button changes it by more than 0.25. *)
Theorem offset_effect_bounded
    (currentSpeed targetSpeed multiplier : Q) (overrideIndex : Z)
    (tempOffset : Q) :
  override_in_range overrideIndex ->
  let released :=
    finalSpeed currentSpeed targetSpeed multiplier overrideIndex
               handleOffsetRelease in
  let held :=
    finalSpeed currentSpeed targetSpeed multiplier overrideIndex tempOffset in
  (0 <= tempOffset -> released <= held <= released + tempOffset) /\
  (tempOffset <= 0 -> released + tempOffset <= held <= released).
Proof.
  intros _ released held. subst released held.
  calc_pm. split; intros Hoff; calc_unfold; calc_cases; lra.
Qed.

Lemma offset_effect_bounded_witness :
  override_in_range (-1) /\ 0 <= handleCatchUp /\ handleSlowDown <= 0 /\
  finalSpeed 9 5 1 (-1) 0 <= finalSpeed 9 5 1 (-1) handleCatchUp
    <= finalSpeed 9 5 1 (-1) 0 + handleCatchUp /\
  finalSpeed 9 5 1 (-1) 0 + handleSlowDown
    <= finalSpeed 9 5 1 (-1) handleSlowDown <= finalSpeed 9 5 1 (-1) 0.
Proof.
  assert (Hr : override_in_range (-1)) by (unfold override_in_range; lia).
  assert (Hup : 0 <= handleCatchUp) by (vm_compute; discriminate).
  assert (Hdn : handleSlowDown <= 0) by (vm_compute; discriminate).
  repeat (split; [assumption|]).
  split.
  - exact (proj1 (offset_effect_bounded 9 5 1 (-1) handleCatchUp Hr) Hup).
  - exact (proj2 (offset_effect_bounded 9 5 1 (-1) handleSlowDown Hr) Hdn).
Defined.

(** X4: below the floor a negative offset does nothing: the final speed is
    the one with the offset released. *)
Theorem offset_inert_below_floor
    (currentSpeed targetSpeed multiplier : Q) (overrideIndex : Z)
    (tempOffset : Q) :
  override_in_range overrideIndex ->
  postMultiplierSpeed currentSpeed targetSpeed multiplier overrideIndex
    < MIN_FINAL_SPEED ->
  tempOffset < 0 ->
  finalSpeed currentSpeed targetSpeed multiplier overrideIndex tempOffset
  == finalSpeed currentSpeed targetSpeed multiplier overrideIndex
                handleOffsetRelease.
Proof.
  intros _. calc_pm. intros Hlow Hneg. calc_unfold. calc_cases; lra.
Qed.

Lemma offset_inert_below_floor_witness :
  override_in_range (-1) /\
  postMultiplierSpeed 0.5 5 1 (-1) < MIN_FINAL_SPEED /\ -0.25 < 0 /\
  finalSpeed 0.5 5 1 (-1) (-0.25)
  == finalSpeed 0.5 5 1 (-1) handleOffsetRelease.
Proof.
  assert (Hr : override_in_range (-1)) by (unfold override_in_range; lia).
  assert (Hlow : postMultiplierSpeed 0.5 5 1 (-1) < MIN_FINAL_SPEED)
    by reflexivity.
  assert (Hneg : -0.25 < 0) by reflexivity.
  repeat (split; [assumption|]).
  exact (offset_inert_below_floor 0.5 5 1 (-1) (-0.25) Hr Hlow Hneg).
Defined.

(** ** Override presets and their LEDs *)

(** X5: with any override active and a target speed that is not
    negative, the post-multiplier speed is a quarter per lit LED, current
    speed and multiplier have no influence, and the final speed stays at
    or above the floor 0.1 whatever the offset. *)
Theorem override_active_pins
    (currentSpeed targetSpeed multiplier tempOffset : Q) (overrideIndex : Z) :
  (0 <= overrideIndex <= 3)%Z -> 0 <= targetSpeed ->
  postMultiplierSpeed currentSpeed targetSpeed multiplier overrideIndex
    == 0.25 * inject_Z (Z.of_nat (count_occ bool_dec
                                    (LEDs (N:=Q) overrideIndex) true)) /\
  (forall currentSpeed' multiplier' : Q,
     finalSpeed currentSpeed' targetSpeed multiplier' overrideIndex tempOffset
     = finalSpeed currentSpeed targetSpeed multiplier overrideIndex
                  tempOffset) /\
  MIN_FINAL_SPEED
    <= finalSpeed currentSpeed targetSpeed multiplier overrideIndex
                  tempOffset.
Proof.
  intros Hoi Htgt.
  assert (Hge : Qle_bool 0.0 targetSpeed = true)
    by (apply Qle_bool_iff; lra).
  assert (Hr : override_in_range overrideIndex)
    by (unfold override_in_range; lia).
  unfold finalSpeed, postMultiplierSpeed.
  override_split Hr; try lia; cbn [ge lit Q_JsNumber]; rewrite Hge;
    (split; [reflexivity|]); (split; [reflexivity|]);
    calc_unfold; calc_cases; lra.
Qed.

Lemma override_active_pins_witness :
  (0 <= 1 <= 3)%Z /\ 0 <= 5 /\
  MIN_FINAL_SPEED <= finalSpeed 0 5 0 1 (-0.25).
Proof.
  assert (Hoi : (0 <= 1 <= 3)%Z) by lia.
  assert (Htgt : 0 <= 5) by lra.
  repeat (split; [assumption|]).
  exact (proj2 (proj2 (override_active_pins 0 5 0 (-0.25) 1 Hoi Htgt))).
Defined.

(** X6: the LEDs light from the left, one more per toggle: exactly
    [overrideIndex + 1] of the four are lit, and they are the first ones;
    the override is reported on exactly when one is lit. *)
Theorem LEDs_lit (overrideIndex : Z) :
  override_in_range overrideIndex ->
  LEDs (N:=Q) overrideIndex
    = repeat true (Z.to_nat (overrideIndex + 1))
      ++ repeat false (Z.to_nat (3 - overrideIndex)) /\
  (isOverride (N:=Q) overrideIndex = true
   <-> In true (LEDs (N:=Q) overrideIndex)).
Proof.
  intros Hr.
  destruct (override_cases _ Hr) as [-> | [-> | [-> | [-> | ->]]]];
    (split; [reflexivity|]); vm_compute; intuition discriminate.
Qed.

Lemma LEDs_lit_witness :
  override_in_range 1 /\
  LEDs (N:=Q) 1 = [true; true; false; false].
Proof.
  assert (Hr : override_in_range 1) by (unfold override_in_range; lia).
  split; [exact Hr | exact (proj1 (LEDs_lit 1 Hr))].
Defined.

(** ** Resetting *)

(** X7: after "reset" of the VRTI section and release of the offset the
    widget maps the belt speed linearly: for a current speed in range the
    walk speed is [currentSpeed / MAX_SPEED], and the reset button of the
    section is hidden. *)
Theorem reset_gives_linear_map (s : Widget.State Q) :
  speed_in_range (Widget.currentSpeed s) ->
  let s' := run s [Widget.ResetVRTI; Widget.OffsetRelease] in
  walkSpeed s' == Widget.currentSpeed s / MAX_SPEED /\
  showResetVRTI s' = false.
Proof.
  destruct s as [tgt cur m oi off hold]. intros Hr s'. subst s'.
  cbn [run fold_left step]. split; [|reflexivity].
  unfold walkSpeed.
  cbn [Widget.targetSpeed Widget.currentSpeed Widget.multiplier
       Widget.overrideIndex Widget.tempOffset] in *.
  unfold finalSpeed, postMultiplierSpeed.
  replace (override (N:=Q) (-1)) with (@None Q) by reflexivity.
  calc_unfold. calc_cases; lra.
Qed.

Lemma reset_gives_linear_map_witness :
  speed_in_range 7.3 /\
  walkSpeed (run (Widget.mkState 8 7.3 1.6 2 0.25 (Some up))
                 [Widget.ResetVRTI; Widget.OffsetRelease])
  == 7.3 / MAX_SPEED.
Proof.
  assert (Hr : speed_in_range 7.3) by (calc_unfold; lra).
  split; [exact Hr|].
  exact (proj1 (reset_gives_linear_map
                  (Widget.mkState 8 7.3 1.6 2 0.25 (Some up)) Hr)).
Defined.

(** ** The output bar *)

(** X8: the bar's percentage is between 0 and 100 for any value, and for
    a final speed it is that speed times 100: the clamp inside
    [SpeedOutput] never changes what [finalSpeed] hands it. *)
Theorem SpeedOutput_pct_spec :
  (forall value : Q, 0 <= SpeedOutput_pct value <= 100) /\
  (forall (currentSpeed targetSpeed multiplier : Q) (overrideIndex : Z)
          (tempOffset : Q),
     override_in_range overrideIndex ->
     SpeedOutput_pct
       (finalSpeed currentSpeed targetSpeed multiplier overrideIndex
                   tempOffset)
     == finalSpeed currentSpeed targetSpeed multiplier overrideIndex
                   tempOffset * 100).
Proof.
  split.
  - intros value. widget_unfold. calc_cases; lra.
  - intros cur tgt m oi off _. unfold SpeedOutput_pct. calc_pm.
    calc_unfold. calc_cases; lra.
Qed.

Lemma SpeedOutput_pct_spec_witness :
  override_in_range 0 /\
  SpeedOutput_pct (finalSpeed 4 5 1 0 0.25) == finalSpeed 4 5 1 0 0.25 * 100.
Proof.
  assert (Hr : override_in_range 0) by (unfold override_in_range; lia).
  split; [exact Hr | exact (proj2 SpeedOutput_pct_spec 4 5 1 0%Z 0.25 Hr)].
Defined.


(** ** The multiplier edit handler, continued *)

Lemma handleMultiplierChange_snapped (v : Q) :
  handleMultiplierChange v == 1 \/
  0.08 <= Qabs (handleMultiplierChange v - 1).
Proof.
  destruct (handleMultiplierChange_cases v) as [Hnear Hfar].
  destruct (Qlt_le_dec (Qabs (v - 1.0)) 0.08) as [Hlt | Hge].
  - rewrite (Hnear Hlt). left. reflexivity.
  - rewrite (Hfar Hge). right. revert Hge. calc_cases; intros; lra.
Qed.

(** X10: snapping is idempotent, moves a value by less than 0.08, and
    leaves a value that is 1.0 or at least 0.08 away from it. *)
Theorem handleMultiplierChange_projection (v : Q) :
  handleMultiplierChange (handleMultiplierChange v)
    = handleMultiplierChange v /\
  Qabs (handleMultiplierChange v - v) < 0.08 /\
  (handleMultiplierChange v == 1 \/
   0.08 <= Qabs (handleMultiplierChange v - 1)).
Proof.
  destruct (handleMultiplierChange_cases v) as [Hnear Hfar].
  destruct (Qlt_le_dec (Qabs (v - 1.0)) 0.08) as [Hlt | Hge].
  - split; [now rewrite (Hnear Hlt)|].
    split; [|apply handleMultiplierChange_snapped].
    rewrite (Hnear Hlt). revert Hlt. calc_cases; intros; lra.
  - split; [now rewrite !(Hfar Hge)|].
    split; [|apply handleMultiplierChange_snapped].
    rewrite (Hfar Hge). setoid_replace (v - v) with 0 by ring. reflexivity.
Qed.

(** ** The smoothing tick, continued *)

Lemma animate_n_add (n m : nat) (targetSpeed currentSpeed : Q) :
  animate_n (n + m) targetSpeed currentSpeed
  = animate_n m targetSpeed (animate_n n targetSpeed currentSpeed).
Proof.
  revert currentSpeed. induction n as [| n IH]; intros cur; [reflexivity|].
  cbn [Nat.add animate_n]. apply IH.
Qed.

Lemma animate_in_interval (lo hi targetSpeed currentSpeed : Q) :
  lo <= currentSpeed <= hi -> lo <= targetSpeed <= hi ->
  lo <= animate targetSpeed currentSpeed <= hi.
Proof.
  intros Hc Ht. calc_unfold. calc_cases; lra.
Qed.

(** X11: ticking never leaves an interval that holds both the current and
    the target speed; in particular a current speed in [0, MAX_SPEED] stays
    there for a target in [0, MAX_SPEED]. *)
Theorem animate_n_in_interval
    (n : nat) (lo hi targetSpeed currentSpeed : Q) :
  lo <= currentSpeed <= hi -> lo <= targetSpeed <= hi ->
  lo <= animate_n n targetSpeed currentSpeed <= hi.
Proof.
  revert currentSpeed. induction n as [| n IH]; intros cur Hc Ht.
  - exact Hc.
  - cbn [animate_n]. apply IH; [|exact Ht]. now apply animate_in_interval.
Qed.

Lemma animate_n_in_interval_witness :
  0 <= 2 <= 10 /\ 0 <= 9 <= 10 /\ 0 <= animate_n 40 9 2 <= 10.
Proof.
  assert (Hc : 0 <= 2 <= 10) by lra.
  assert (Ht : 0 <= 9 <= 10) by lra.
  repeat (split; [assumption|]).
  exact (animate_n_in_interval 40 0 10 9 2 Hc Ht).
Defined.

(** X12: the target is absorbing: once some number of ticks has reached
    it, every larger number of ticks gives it too. *)
Theorem animate_n_stays (n m : nat) (targetSpeed currentSpeed : Q) :
  animate_n n targetSpeed currentSpeed = targetSpeed ->
  (n <= m)%nat ->
  animate_n m targetSpeed currentSpeed = targetSpeed.
Proof.
  intros Hn Hle. replace m with (n + (m - n))%nat by lia.
  rewrite animate_n_add, Hn. apply animate_n_fixed.
Qed.

Lemma animate_n_stays_witness :
  animate_n 1 5 4.96 = 5 /\ (1 <= 1000)%nat /\ animate_n 1000 5 4.96 = 5.
Proof.
  assert (Hn : animate_n 1 5 4.96 = 5) by reflexivity.
  assert (Hle : (1 <= 1000)%nat) by lia.
  repeat (split; [assumption|]).
  exact (animate_n_stays 1 1000 5 4.96 Hn Hle).
Defined.

(** ** The states the widget can reach *)

(** X14: in every reachable state the target and current speed are in
    [0, MAX_SPEED], the multiplier is in [0, 2] and the override index is
    one of -1, 0, 1, 2, 3: the ranges the composition is specified
    on. *)
Theorem reachable_in_range (s : Widget.State Q) :
  reachable s ->
  speed_in_range (Widget.targetSpeed s) /\
  speed_in_range (Widget.currentSpeed s) /\
  0 <= Widget.multiplier s <= 2 /\
  override_in_range (Widget.overrideIndex s).
Proof.
  induction 1 as [| s e Hs IH He].
  - vm_compute. intuition discriminate.
  - destruct s as [tgt cur m oi off hold].
    cbn [Widget.targetSpeed Widget.currentSpeed Widget.multiplier
         Widget.overrideIndex] in IH.
    destruct IH as (Ht & Hc & Hm & Ho).
    destruct e as [v | v | | | | | | |];
      cbn [step valid_event Widget.targetSpeed Widget.currentSpeed
           Widget.multiplier Widget.overrideIndex] in *;
      (split; [|split; [|split]]);
      first [ assumption
            | now apply handleOverrideClick_in_range
            | exact (animate_in_interval 0 MAX_SPEED _ _ Hc Ht)
            | unfold override_in_range; lia
            | calc_unfold; calc_cases; lra ].
Qed.

Lemma reachable_in_range_witness :
  reachable (step (step initial (Widget.TargetSpeedChange 8.5))
                  Widget.AnimationFrame) /\
  speed_in_range
    (Widget.currentSpeed
       (step (step initial (Widget.TargetSpeedChange 8.5))
             Widget.AnimationFrame)).
Proof.
  assert (Hr : reachable (step (step initial (Widget.TargetSpeedChange 8.5))
                               Widget.AnimationFrame)).
  { apply reachable_step; [|exact I].
    apply reachable_step; [apply reachable_initial|].
    cbn [valid_event]. lra. }
  split; [exact Hr | exact (proj1 (proj2 (reachable_in_range _ Hr)))].
Defined.

(** X15: in every reachable state the stored multiplier is 1.0 or at
    least 0.08 away from it. *)
Theorem reachable_multiplier_snapped (s : Widget.State Q) :
  reachable s ->
  Widget.multiplier s == 1 \/ 0.08 <= Qabs (Widget.multiplier s - 1).
Proof.
  induction 1 as [| s e Hs IH He].
  - left. reflexivity.
  - destruct s as [tgt cur m oi off hold].
    destruct e as [v | v | | | | | | |];
      cbn [step Widget.multiplier] in *; try exact IH.
    + apply handleMultiplierChange_snapped.
    + left. reflexivity.
Qed.

Lemma reachable_multiplier_snapped_witness :
  reachable (step initial (Widget.MultiplierChange 1.05)) /\
  (Widget.multiplier (step initial (Widget.MultiplierChange 1.05)) == 1 \/
   0.08 <= Qabs (Widget.multiplier
                   (step initial (Widget.MultiplierChange 1.05)) - 1)).
Proof.
  assert (Hr : reachable (step initial (Widget.MultiplierChange 1.05))).
  { apply reachable_step; [apply reachable_initial|].
    cbn [valid_event]. lra. }
  split; [exact Hr | exact (reachable_multiplier_snapped _ Hr)].
Defined.

(** X16: the offset and the highlighted button never disagree: in every
    reachable state [tempOffset] is -0.25 with "down" held, 0.25 with "up"
    held and 0 with nothing held. *)
Theorem reachable_offset_in_step (s : Widget.State Q) :
  reachable s ->
  Widget.tempOffset s
  == match Widget.holdingOffset s with
     | Some down => - TEMP_OFFSET_AMOUNT
     | Some up => TEMP_OFFSET_AMOUNT
     | None => 0
     end.
Proof.
  induction 1 as [| s e Hs IH He].
  - reflexivity.
  - destruct s as [tgt cur m oi off hold].
    destruct e as [v | v | | | | | | |];
      cbn [step Widget.tempOffset Widget.holdingOffset] in *;
      first [exact IH | reflexivity].
Qed.

Lemma reachable_offset_in_step_witness :
  reachable (step initial Widget.SlowDown) /\
  Widget.tempOffset (step initial Widget.SlowDown) == - TEMP_OFFSET_AMOUNT.
Proof.
  assert (Hr : reachable (step initial Widget.SlowDown)).
  { apply reachable_step; [apply reachable_initial | exact I]. }
  split; [exact Hr | exact (reachable_offset_in_step _ Hr)].
Defined.

(** * [TreadmillTable.tsx] *)

Module TableFacts.
Import TreadmillTable.

Lemma includes_In (x : String.string) (l : list String.string) :
  includes x l = true <-> In x l.
Proof.
  unfold includes. rewrite existsb_exists. split.
  - intros (y & Hy & He). apply String.eqb_eq in He. now subst.
  - intros Hx. exists x. split; [exact Hx | apply String.eqb_refl].
Qed.

Lemma includes_false (x : String.string) (l : list String.string) :
  includes x l = false <-> ~ In x l.
Proof.
  rewrite <- includes_In. destruct (includes x l); intuition congruence.
Qed.

(** X17: a display name is its own display name, so the names in the
    driver filter can be fed back to [getDriverDisplayName] unchanged. *)
Theorem getDriverDisplayName_idempotent (driver : String.string) :
  getDriverDisplayName (getDriverDisplayName driver)
  = getDriverDisplayName driver.
Proof.
  unfold getDriverDisplayName at 2 3.
  destruct (String.eqb driver "Kingsmith Walking Pad") eqn:Hk;
    [reflexivity|].
  destruct (String.eqb driver "Generic") eqn:Hg; [reflexivity|].
  unfold getDriverDisplayName. now rewrite Hk, Hg.
Qed.

(** X18: toggling [x] flips whether [x] is selected and changes nothing
    else about who is selected. *)
Theorem toggle_In (x y : String.string) (prev : list String.string) :
  In y (toggle x prev) <->
  (y = x /\ ~ In x prev) \/ (y <> x /\ In y prev).
Proof.
  unfold toggle. destruct (includes x prev) eqn:Hx.
  - apply includes_In in Hx. rewrite filter_In, negb_true_iff.
    rewrite String.eqb_neq. intuition.
  - apply includes_false in Hx. rewrite in_app_iff. cbn [In].
    destruct (String.string_dec y x) as [-> | Hne]; intuition congruence.
Qed.

Lemma filter_all {A : Type} (p : A -> bool) (l : list A) :
  (forall a, In a l -> p a = true) -> filter p l = l.
Proof.
  induction l as [| a l IH]; intros Hall; [reflexivity|].
  cbn [filter]. rewrite (Hall a (or_introl eq_refl)).
  f_equal. apply IH. intros b Hb. apply Hall. now right.
Qed.

(** X19: a selection without duplicates stays without duplicates, and
    ticking an entry that was not selected and unticking it again gives
    back the very same selection. *)
Theorem toggle_roundtrip (x : String.string) (prev : list String.string) :
  (NoDup prev -> NoDup (toggle x prev)) /\
  (~ In x prev -> toggle x (toggle x prev) = prev).
Proof.
  split.
  - intros Hnd. unfold toggle. destruct (includes x prev) eqn:Hx.
    + now apply NoDup_filter.
    + apply includes_false in Hx. apply NoDup_app; auto.
      * constructor; [intros [] | constructor].
      * intros a Ha [<- | []]. contradiction.
  - intros Hx. unfold toggle at 2. rewrite (proj2 (includes_false _ _) Hx).
    unfold toggle.
    assert (Hin : includes x (prev ++ [x]) = true)
      by (apply includes_In, in_app_iff; right; now left).
    rewrite Hin, filter_app. cbn [filter]. rewrite String.eqb_refl.
    cbn [negb]. rewrite app_nil_r. apply filter_all.
    intros a Ha. apply negb_true_iff, String.eqb_neq. intros ->.
    contradiction.
Qed.

Lemma toggle_roundtrip_witness :
  NoDup ["steps"; "cadence"]%string /\
  NoDup (toggle "calories" ["steps"; "cadence"]%string) /\
  ~ In "calories"%string ["steps"; "cadence"]%string /\
  toggle "calories" (toggle "calories" ["steps"; "cadence"]%string)
  = ["steps"; "cadence"]%string.
Proof.
  assert (Hnd : NoDup ["steps"; "cadence"]%string).
  { repeat constructor; cbn [In]; intuition discriminate. }
  assert (Hx : ~ In "calories"%string ["steps"; "cadence"]%string).
  { cbn [In]. intuition discriminate. }
  split; [exact Hnd|].
  split; [exact (proj1 (toggle_roundtrip _ _) Hnd)|].
  split; [exact Hx | exact (proj2 (toggle_roundtrip _ _) Hx)].
Defined.

(** ** Pages *)

Lemma firstn_plus {A : Type} (a b : nat) (l : list A) :
  firstn (a + b) l = firstn a l ++ firstn b (skipn a l).
Proof.
  revert l. induction a as [| a IH]; intros l; [reflexivity|].
  destruct l as [| x l]; [now rewrite !firstn_nil|].
  cbn [Nat.add firstn skipn app]. now rewrite IH.
Qed.

(** A page with a positive number is the chunk of twelve at its place. *)
Lemma paginatedData_chunk {A : Type} (l : list A) (page : Z) :
  (1 <= page)%Z ->
  paginatedData l page = firstn 12 (skipn (12 * Z.to_nat (page - 1)) l).
Proof.
  intros Hp. unfold paginatedData, slice, itemsPerPage.
  set (len := Z.of_nat (List.length l)).
  assert (Hlen : (0 <= len)%Z) by (subst len; lia).
  destruct (Z.ltb_spec ((page - 1) * 12) 0) as [Hneg | _]; [lia|].
  destruct (Z.ltb_spec (page * 12) 0) as [Hneg | _]; [lia|].
  destruct (Z_le_gt_dec len ((page - 1) * 12)) as [Hout | Hin].
  - rewrite (Z.min_r ((page - 1) * 12) len) by lia.
    rewrite !skipn_all2 by (subst len; lia). now rewrite !firstn_nil.
  - rewrite (Z.min_l ((page - 1) * 12) len) by lia.
    replace (Z.to_nat ((page - 1) * 12)) with (12 * Z.to_nat (page - 1))%nat
      by lia.
    destruct (Z_le_gt_dec (page * 12) len) as [Hfull | Hlast].
    + rewrite Z.min_l by lia. f_equal. lia.
    + rewrite Z.min_r by lia.
      rewrite !firstn_all2; [reflexivity | |];
        rewrite length_skipn; subst len; lia.
Qed.

Lemma pages_prefix {A : Type} (l : list A) (n : nat) :
  flat_map (paginatedData l) (map (fun i => (Z.of_nat i + 1)%Z) (seq 0 n))
  = firstn (12 * n) l.
Proof.
  induction n as [| n IH]; [reflexivity|].
  rewrite seq_S, map_app, flat_map_app, IH. cbn [map flat_map Nat.add].
  rewrite app_nil_r, paginatedData_chunk by lia.
  replace (Z.to_nat (Z.of_nat n + 1 - 1)) with n by lia.
  replace (12 * S n)%nat with (12 * n + 12)%nat by lia.
  now rewrite firstn_plus.
Qed.

Lemma totalPages_bounds {A : Type} (l : list A) :
  (12 * (totalPages l - 1) < Z.of_nat (List.length l) <= 12 * totalPages l)%Z.
Proof.
  unfold totalPages, itemsPerPage.
  pose proof (Z.div_mod (Z.of_nat (List.length l) + 12 - 1) 12 ltac:(lia)).
  pose proof (Z.mod_pos_bound (Z.of_nat (List.length l) + 12 - 1) 12
                ltac:(lia)).
  lia.
Qed.

(** X20: the pages behind the page buttons, one after the other, are the
    filtered list: every row is on exactly one page, in order. *)
Theorem pages_cover {A : Type} (filteredData : list A) :
  flat_map (paginatedData filteredData)
           (pageNumbers (totalPages filteredData))
  = filteredData.
Proof.
  unfold pageNumbers. rewrite pages_prefix. apply firstn_all2.
  pose proof (totalPages_bounds filteredData). lia.
Qed.

Lemma page_length {A : Type} (l : list A) (page : Z) :
  (1 <= page)%Z ->
  List.length (paginatedData l page)
  = Nat.min 12 (List.length l - 12 * Z.to_nat (page - 1)).
Proof.
  intros Hp. rewrite paginatedData_chunk by exact Hp.
  now rewrite length_firstn, length_skipn.
Qed.

(** X21: a page with a number from 1 to [totalPages] holds between 1 and
    12 rows, exactly 12 unless it is the last; a page with a larger
    number is empty. *)
Theorem page_sizes {A : Type} (filteredData : list A) (page : Z) :
  (1 <= page)%Z ->
  let rows := List.length (paginatedData filteredData page) in
  ((page <= totalPages filteredData)%Z -> (1 <= rows <= 12)%nat) /\
  ((page < totalPages filteredData)%Z -> rows = 12%nat) /\
  ((totalPages filteredData < page)%Z -> rows = 0%nat).
Proof.
  intros Hp rows. subst rows. rewrite page_length by exact Hp.
  pose proof (totalPages_bounds filteredData). lia.
Qed.

Lemma page_sizes_witness :
  (1 <= 2)%Z /\ (2 <= totalPages (repeat tt 13))%Z /\
  (1 <= List.length (paginatedData (repeat tt 13) 2) <= 12)%nat.
Proof.
  assert (Hp : (1 <= 2)%Z) by lia.
  assert (Ht : (2 <= totalPages (repeat tt 13))%Z)
    by (vm_compute; discriminate).
  split; [exact Hp|]. split; [exact Ht|].
  exact (proj1 (page_sizes (repeat tt 13) 2 Hp) Ht).
Defined.

(** ** Filtering *)

Lemma filter_andb {A : Type} (p q : A -> bool) (l : list A) :
  filter p (filter q l) = filter (fun a => q a && p a) l.
Proof.
  induction l as [| a l IH]; [reflexivity|].
  cbn [filter]. destruct (q a); cbn [filter andb]; now rewrite IH.
Qed.

Lemma str_includes_empty (hay : String.string) :
  str_includes "" hay = true.
Proof. now destruct hay. Qed.

(** ** The counts beside the filter entries *)

Lemma inherited___proto__ (k : String.string) :
  inherited k = false -> String.eqb k "__proto__" = false.
Proof.
  intros Hk. destruct (String.eqb_spec k "__proto__") as [-> |];
    [discriminate Hk | reflexivity].
Qed.

(** A key is bumped without touching what another key reads. *)
Lemma get_bump_other (k k' : String.string)
    (c : list (String.string * JsValue)) :
  k' <> k -> get k (bump k' c) = get k c.
Proof.
  intros Hne. unfold bump, set.
  destruct (String.eqb k' "__proto__"); [reflexivity|].
  unfold get. generalize (or_0_plus_1
                            match own k' c with
                            | Some v => Some v
                            | None => if inherited k' then Some (Member k')
                                      else None
                            end).
  intros v. replace (own k (set_own k' v c)) with (own k c); [reflexivity|].
  induction c as [| [a w] r IH]; cbn [set_own own].
  - now destruct (String.eqb_spec k' k).
  - destruct (String.eqb_spec a k') as [-> | Hak']; cbn [own].
    + now destruct (String.eqb_spec k' k).
    + now rewrite IH.
Qed.

Lemma own_set_own (k : String.string) (v : JsValue)
    (c : list (String.string * JsValue)) :
  own k (set_own k v c) = Some v.
Proof.
  induction c as [| [a w] r IH]; cbn [set_own own].
  - now rewrite String.eqb_refl.
  - destruct (String.eqb_spec a k) as [-> | Hak]; cbn [own].
    + now rewrite String.eqb_refl.
    + destruct (String.eqb_spec a k); [contradiction | exact IH].
Qed.

(** A key that [Object.prototype] does not have reads a number after the
    bump, one more than before. *)
Lemma get_bump_same (k : String.string)
    (c : list (String.string * JsValue)) :
  inherited k = false ->
  get k (bump k c) = Some (or_0_plus_1 (get k c)).
Proof.
  intros Hk. unfold bump, set. rewrite (inherited___proto__ k Hk).
  unfold get at 1. now rewrite own_set_own.
Qed.

Lemma reads_nil (k : String.string) : inherited k = false -> reads k [] 0.
Proof. intros Hk. unfold reads, get. cbn [own]. now rewrite Hk. Qed.

Lemma reads_bump (k k' : String.string)
    (c : list (String.string * JsValue)) (n : nat) :
  inherited k = false -> reads k c n ->
  reads k (bump k' c) (n + if String.eqb k' k then 1 else 0).
Proof.
  unfold reads. intros Hk Hn.
  destruct (String.eqb_spec k' k) as [-> | Hne].
  - rewrite get_bump_same, Hn by exact Hk.
    replace (n + 1)%nat with (S n) by lia. now destruct n.
  - rewrite get_bump_other by exact Hne.
    now replace (n + 0)%nat with n by lia.
Qed.

(** The bump, unfolded along the list of own properties. *)
Lemma bump_nil (k : String.string) :
  inherited k = false -> bump k [] = [(k, Num 1)].
Proof.
  intros Hk. unfold bump, set, get. cbn [own].
  now rewrite Hk, (inherited___proto__ k Hk).
Qed.

Lemma bump_cons (k a : String.string) (w : JsValue)
    (r : list (String.string * JsValue)) :
  inherited k = false ->
  bump k ((a, w) :: r)
  = if String.eqb a k then (a, or_0_plus_1 (Some w)) :: r
    else (a, w) :: bump k r.
Proof.
  intros Hk. unfold bump, set, get. rewrite (inherited___proto__ k Hk).
  cbn [own set_own]. now destruct (String.eqb a k).
Qed.

Lemma bump_numbers (k : String.string)
    (c : list (String.string * JsValue)) (ns : list nat) :
  inherited k = false -> map snd c = map Num ns ->
  exists ns', map snd (bump k c) = map Num ns'
              /\ list_sum ns' = S (list_sum ns).
Proof.
  intros Hk. revert ns. induction c as [| [a w] r IH]; intros ns Hns.
  - destruct ns; [|discriminate]. rewrite bump_nil by exact Hk.
    now exists [1%nat].
  - destruct ns as [| n ns]; [discriminate|].
    cbn [map snd] in Hns. injection Hns as -> Hr.
    rewrite bump_cons by exact Hk. destruct (String.eqb a k).
    + exists (S n :: ns). cbn [map snd or_0_plus_1]. rewrite Hr.
      split; [reflexivity | simpl; lia].
    + destruct (IH ns Hr) as (ns' & Hns' & Hsum).
      exists (n :: ns'). cbn [map snd]. rewrite Hns'.
      split; [reflexivity | simpl in *; lia].
Qed.

Section WithLowerCase.
Variable toLowerCase : String.string -> String.string.

(** The page is 1 or one of the pages of what is shown. *)
Lemma reachable_page (data : list Treadmill) (s : TableState) :
  table_reachable toLowerCase data s ->
  page s = 1%Z \/
  (1 <= page s <= totalPages (shown toLowerCase data s))%Z.
Proof.
  induction 1 as [| s e Hs IH]; [now left|].
  destruct e as [value | f | d | | newPage]; try (now left).
  unfold shown in *.
  cbn [table_step page search selectedFeatures selectedDrivers] in *.
  unfold handlePageChange.
  destruct (Z.geb_spec newPage 1); cbn [andb]; [|exact IH].
  match goal with
  | |- context [(newPage <=? ?t)%Z] => destruct (Z.leb_spec newPage t)
  end; [right; unfold shown in *; lia | exact IH].
Qed.

(** X22: whatever the user has done, when the filters leave any row the
    current page shows at least one: no change of search, filter or page
    strands the table on an empty page. *)
Theorem shown_page_nonempty (data : list Treadmill) (s : TableState) :
  table_reachable toLowerCase data s ->
  shown toLowerCase data s <> [] ->
  paginatedData (shown toLowerCase data s) (page s) <> [].
Proof.
  intros Hs Hne.
  pose proof (totalPages_bounds (shown toLowerCase data s)) as Hb.
  assert (Hlen : (0 < List.length (shown toLowerCase data s))%nat).
  { destruct (shown toLowerCase data s); [contradiction | cbn; lia]. }
  assert (Hp : (1 <= page s <= totalPages (shown toLowerCase data s))%Z).
  { destruct (reachable_page data s Hs) as [-> | Hp]; lia. }
  intros Hnil. apply (f_equal (@List.length _)) in Hnil.
  rewrite page_length in Hnil by lia. cbn [List.length] in Hnil. lia.
Qed.

(** X24: ticking a feature that was not ticked keeps exactly those of
    the shown rows that list the feature. *)
Theorem toggle_feature_refines
    (data : list Treadmill) (s : TableState) (f : String.string) :
  ~ In f (selectedFeatures s) ->
  shown toLowerCase data (table_step toLowerCase data s (ToggleFeature f))
  = filter (fun item => includes f (features item))
           (shown toLowerCase data s).
Proof.
  intros Hf. unfold shown, filteredData. cbn [table_step search selectedFeatures
                                                 selectedDrivers].
  unfold toggle. rewrite (proj2 (includes_false _ _) Hf).
  rewrite filter_andb. apply filter_ext. intros item. unfold matches.
  rewrite forallb_app, length_app. cbn [forallb List.length].
  replace (List.length (selectedFeatures s) + 1 =? 0)%nat with false
    by (symmetry; apply Nat.eqb_neq; lia).
  destruct (selectedFeatures s) as [| g sel];
    cbn [List.length Nat.eqb forallb]; btauto.
Qed.

Hypothesis toLowerCase_empty : toLowerCase "" = ""%string.

Lemma matches_search_empty (item : Treadmill)
    (selF selD : list String.string) :
  matches toLowerCase "" selF selD item
  = ((List.length selF =? 0)%nat
     || forallb (fun f => includes f (features item)) selF)
    && ((List.length selD =? 0)%nat
        || includes (getDriverDisplayName (driver item)) selD).
Proof.
  unfold matches. rewrite toLowerCase_empty, !str_includes_empty.
  reflexivity.
Qed.

(** X23: with the search box empty and nothing ticked every treadmill is
    shown: at the start and after "clear filters" alike. *)
Theorem clear_shows_all (data : list Treadmill) (s : TableState) :
  shown toLowerCase data table_initial = data /\
  shown toLowerCase data (table_step toLowerCase data s ClearFilters) = data.
Proof.
  split; unfold shown, filteredData;
    cbn [table_step table_initial search selectedFeatures selectedDrivers];
    apply filter_all; intros item _; now rewrite matches_search_empty.
Qed.

Lemma driverCounts_count (data : list Treadmill) (d : String.string) :
  inherited d = false ->
  forall acc n,
    reads d acc n ->
    reads d (fold_left
               (fun counts t =>
                  bump (getDriverDisplayName (driver t)) counts)
               data acc)
          (n + List.length (filter (matches toLowerCase "" [] [d]) data)).
Proof.
  intros Hd. induction data as [| t data IH]; intros acc n Hn.
  - cbn [fold_left filter List.length].
    now replace (n + 0)%nat with n by lia.
  - cbn [fold_left filter].
    pose proof (IH _ _ (reads_bump d (getDriverDisplayName (driver t))
                          acc n Hd Hn)) as Hr.
    rewrite matches_search_empty.
    cbn [List.length Nat.eqb orb andb forallb].
    unfold includes. cbn [existsb]. rewrite orb_false_r.
    destruct (String.eqb (getDriverDisplayName (driver t)) d);
      cbn [List.length];
      [replace (n + S (List.length
                         (filter (matches toLowerCase "" [] [d]) data)))%nat
         with (n + 1 + List.length
                         (filter (matches toLowerCase "" [] [d]) data))%nat
         by lia
      |replace (n + List.length
                      (filter (matches toLowerCase "" [] [d]) data))%nat
         with (n + 0 + List.length
                         (filter (matches toLowerCase "" [] [d]) data))%nat
         by lia];
      exact Hr.
Qed.

Lemma driverCounts_sum (data : list Treadmill) :
  (forall t, In t data ->
             inherited (getDriverDisplayName (driver t)) = false) ->
  forall acc ns,
    map snd acc = map Num ns ->
    exists ns',
      map snd (fold_left
                 (fun counts t =>
                    bump (getDriverDisplayName (driver t)) counts)
                 data acc)
      = map Num ns'
      /\ list_sum ns' = (list_sum ns + List.length data)%nat.
Proof.
  induction data as [| t data IH]; intros Hin acc ns Hns.
  - exists ns. cbn [fold_left List.length]. split; [exact Hns | lia].
  - cbn [fold_left List.length].
    destruct (bump_numbers (getDriverDisplayName (driver t)) acc ns
                (Hin t (or_introl eq_refl)) Hns) as (ns1 & Hns1 & Hsum1).
    destruct (IH (fun u Hu => Hin u (or_intror Hu)) _ _ Hns1)
      as (ns' & Hns' & Hsum').
    exists ns'. split; [exact Hns' | lia].
Qed.

(** X25: beside a driver that is not a property name of
    [Object.prototype], the filter menu shows the number of rows ticking
    that driver alone would show; and when no driver of the table is such
    a name, the counts are numbers that add up to the number of
    treadmills. *)
Theorem driverCounts_spec (data : list Treadmill) (d : String.string) :
  (inherited d = false ->
   get d (driverCounts data)
   = match List.length (filteredData toLowerCase data "" [] [d]) with
     | O => None
     | S n => Some (Num (S n))
     end) /\
  ((forall t, In t data ->
              inherited (getDriverDisplayName (driver t)) = false) ->
   exists ns, map snd (driverCounts data) = map Num ns
              /\ list_sum ns = List.length data).
Proof.
  unfold driverCounts, filteredData. split.
  - intros Hd.
    pose proof (driverCounts_count data d Hd [] 0%nat (reads_nil d Hd))
      as Hr.
    unfold reads in Hr. cbn [Nat.add] in Hr. rewrite Hr.
    now destruct (List.length (filter (matches toLowerCase "" [] [d]) data)).
  - intros Hin.
    destruct (driverCounts_sum data Hin [] [] eq_refl) as (ns & Hns & Hsum).
    exists ns. split; [exact Hns | exact Hsum].
Qed.

Lemma bump_all_count (f : String.string) (fs : list String.string) :
  inherited f = false ->
  forall acc n,
    reads f acc n ->
    reads f (fold_left (fun c g => bump g c) fs acc)
          (n + count_occ String.string_dec fs f).
Proof.
  intros Hf. induction fs as [| g fs IH]; intros acc n Hn.
  - cbn [fold_left count_occ]. now replace (n + 0)%nat with n by lia.
  - cbn [fold_left count_occ].
    pose proof (IH _ _ (reads_bump f g acc n Hf Hn)) as Hr.
    destruct (String.eqb_spec g f), (String.string_dec g f);
      try contradiction;
      [replace (n + S (count_occ String.string_dec fs f))%nat
         with (n + 1 + count_occ String.string_dec fs f)%nat by lia
      |replace (n + count_occ String.string_dec fs f)%nat
         with (n + 0 + count_occ String.string_dec fs f)%nat by lia];
      exact Hr.
Qed.

Lemma featureCounts_count (data : list Treadmill) (f : String.string) :
  inherited f = false ->
  (forall t, In t data -> NoDup (features t)) ->
  forall acc n,
    reads f acc n ->
    reads f (fold_left
               (fun counts t =>
                  fold_left (fun c g => bump g c) (features t) counts)
               data acc)
          (n + List.length (filter (matches toLowerCase "" [f] []) data)).
Proof.
  intros Hf. induction data as [| t data IH]; intros Hnd acc n Hn.
  - cbn [fold_left filter List.length].
    now replace (n + 0)%nat with n by lia.
  - cbn [fold_left filter].
    pose proof (IH (fun u Hu => Hnd u (or_intror Hu)) _ _
                  (bump_all_count f (features t) Hf acc n Hn)) as Hr.
    rewrite matches_search_empty.
    cbn [List.length Nat.eqb orb andb forallb]. rewrite !andb_true_r.
    pose proof (Hnd t (or_introl eq_refl)) as Hndt.
    destruct (includes f (features t)) eqn:Hinc; cbn [List.length].
    + apply includes_In in Hinc.
      rewrite (proj1 (NoDup_count_occ' String.string_dec (features t))
                 Hndt f Hinc) in Hr.
      replace (n + S (List.length
                        (filter (matches toLowerCase "" [f] []) data)))%nat
        with (n + 1 + List.length
                        (filter (matches toLowerCase "" [f] []) data))%nat
        by lia.
      exact Hr.
    + apply includes_false in Hinc.
      rewrite (proj1 (count_occ_not_In String.string_dec (features t) f)
                 Hinc) in Hr.
      replace (n + List.length
                     (filter (matches toLowerCase "" [f] []) data))%nat
        with (n + 0 + List.length
                        (filter (matches toLowerCase "" [f] []) data))%nat
        by lia.
      exact Hr.
Qed.

(** X26: on data whose feature lists have no duplicates, beside a feature
    that is not a property name of [Object.prototype] the filter menu
    shows the number of rows ticking that feature alone would show. *)
Theorem featureCounts_spec (data : list Treadmill) (f : String.string) :
  (forall t, In t data -> NoDup (features t)) ->
  inherited f = false ->
  get f (featureCounts data)
  = match List.length (filteredData toLowerCase data "" [f] []) with
    | O => None
    | S n => Some (Num (S n))
    end.
Proof.
  intros Hnd Hf. unfold featureCounts, filteredData.
  pose proof (featureCounts_count data f Hf Hnd [] 0%nat (reads_nil f Hf))
    as Hr.
  unfold reads in Hr. cbn [Nat.add] in Hr. rewrite Hr.
  now destruct (List.length (filter (matches toLowerCase "" [f] []) data)).
Qed.

End WithLowerCase.

Lemma toLowerCase_ascii_empty : toLowerCase_ascii "" = ""%string.
Proof. reflexivity. Qed.

(** Searching the sample table for "walking" leaves its first row. *)
Lemma sample_data_shown :
  shown toLowerCase_ascii sample_data
        (mkTableState "walking"%string [] [] 1)
  = [mkTreadmill "1" "KingSmith" "WalkingPad P1" "Kingsmith Walking Pad"
                 ["speedControl"; "steps"]%string [] None None].
Proof. reflexivity. Qed.

Lemma shown_page_nonempty_witness :
  table_reachable toLowerCase_ascii sample_data
            (table_step toLowerCase_ascii sample_data table_initial
                  (SearchChange "walking")) /\
  paginatedData
    (shown toLowerCase_ascii sample_data
           (table_step toLowerCase_ascii sample_data table_initial
                 (SearchChange "walking")))
    (page (table_step toLowerCase_ascii sample_data table_initial
                (SearchChange "walking")))
  <> [].
Proof.
  assert (Hr : table_reachable toLowerCase_ascii sample_data
                 (table_step toLowerCase_ascii sample_data table_initial
                       (SearchChange "walking"))).
  { apply table_reachable_step. apply table_reachable_initial. }
  split; [exact Hr|].
  apply (shown_page_nonempty toLowerCase_ascii sample_data _ Hr).
  vm_compute. discriminate.
Defined.

Lemma toggle_feature_refines_witness :
  ~ In "steps"%string (selectedFeatures table_initial) /\
  shown toLowerCase_ascii sample_data
        (table_step toLowerCase_ascii sample_data table_initial
                    (ToggleFeature "steps"))
  = filter (fun item => includes "steps" (features item))
           (shown toLowerCase_ascii sample_data table_initial).
Proof.
  assert (Hf : ~ In "steps"%string (selectedFeatures table_initial))
    by (cbn; intuition).
  split; [exact Hf|].
  exact (toggle_feature_refines toLowerCase_ascii sample_data table_initial
           "steps" Hf).
Defined.

Lemma clear_shows_all_witness :
  toLowerCase_ascii "" = ""%string /\
  shown toLowerCase_ascii sample_data
        (table_step toLowerCase_ascii sample_data
              (mkTableState "pad" ["steps"]%string [] 1) ClearFilters)
  = sample_data.
Proof.
  split; [exact toLowerCase_ascii_empty|].
  exact (proj2 (clear_shows_all toLowerCase_ascii toLowerCase_ascii_empty
                  sample_data (mkTableState "pad" ["steps"]%string [] 1))).
Defined.

Lemma sample_data_drivers :
  forall t, In t sample_data ->
            inherited (getDriverDisplayName (driver t)) = false.
Proof. intros t [<- | [<- | [<- | []]]]; reflexivity. Qed.

Lemma driverCounts_spec_witness :
  toLowerCase_ascii "" = ""%string /\
  inherited "Generic FTMS" = false /\
  get "Generic FTMS" (driverCounts sample_data)
  = match List.length (filteredData toLowerCase_ascii sample_data ""
                                    [] ["Generic FTMS"]%string) with
    | O => None
    | S n => Some (Num (S n))
    end /\
  (forall t, In t sample_data ->
             inherited (getDriverDisplayName (driver t)) = false) /\
  exists ns, map snd (driverCounts sample_data) = map Num ns
             /\ list_sum ns = List.length sample_data.
Proof.
  assert (Hd : inherited "Generic FTMS" = false) by reflexivity.
  split; [exact toLowerCase_ascii_empty|].
  split; [exact Hd|].
  split; [exact (proj1 (driverCounts_spec toLowerCase_ascii
                          toLowerCase_ascii_empty sample_data
                          "Generic FTMS") Hd)|].
  split; [exact sample_data_drivers|].
  exact (proj2 (driverCounts_spec toLowerCase_ascii
                  toLowerCase_ascii_empty sample_data "Generic FTMS")
               sample_data_drivers).
Defined.

(** What the hypothesis on the names excludes: a driver called
    [constructor] is counted by appending to the text of
    [Object.prototype.constructor], and one called [__proto__] is not
    counted at all. *)
Lemma driverCounts_inherited_name :
  let t k := mkTreadmill "1" "A" "B" k [] [] None None in
  driverCounts [t "constructor"; t "constructor"]%string
    = [("constructor"%string, Text "constructor" 2)] /\
  driverCounts [t "__proto__"]%string = [] /\
  get "__proto__" (driverCounts [t "__proto__"]%string)
    = Some (Member "__proto__").
Proof. repeat split. Qed.

Lemma sample_data_NoDup :
  forall t, In t sample_data -> NoDup (features t).
Proof.
  intros t [<- | [<- | [<- | []]]]; cbn [features];
    repeat constructor; cbn [In]; intuition discriminate.
Qed.

Lemma featureCounts_spec_witness :
  toLowerCase_ascii "" = ""%string /\
  (forall t, In t sample_data -> NoDup (features t)) /\
  inherited "steps" = false /\
  get "steps" (featureCounts sample_data)
  = match List.length (filteredData toLowerCase_ascii sample_data ""
                                    ["steps"]%string []) with
    | O => None
    | S n => Some (Num (S n))
    end.
Proof.
  assert (Hf : inherited "steps" = false) by reflexivity.
  split; [exact toLowerCase_ascii_empty|].
  split; [exact sample_data_NoDup|].
  split; [exact Hf|].
  exact (featureCounts_spec toLowerCase_ascii toLowerCase_ascii_empty
           sample_data "steps" sample_data_NoDup Hf).
Defined.

End TableFacts.

(** * [scripts/generate-releases.js] *)

Module ReleaseFacts.
Import Releases.

(** X27: a file name is made of letters, digits, dots, underscores and
    hyphens only and has one unit per unit of the tag; making a name safe
    twice changes nothing, and a tag is kept as it is exactly when it is
    already safe. *)
Theorem safeName_spec (tag : jsstring) :
  forallb is_safe (safeName tag) = true /\
  List.length (safeName tag) = List.length tag /\
  safeName (safeName tag) = safeName tag /\
  (safeName tag = tag <-> forallb is_safe tag = true).
Proof.
  unfold safeName. induction tag as [| c tag (IH1 & IH2 & IH3 & IH4)].
  - repeat split; reflexivity.
  - cbn [map forallb List.length].
    destruct (is_safe c) eqn:Hc.
    + rewrite Hc, IH1, IH2, IH3. cbn [andb]. repeat split; auto.
      * intros H. injection H as H. now apply IH4.
      * intros H. f_equal. now apply IH4.
    + change (is_safe 95) with true. rewrite IH1, IH2, IH3. cbn [andb].
      repeat split; auto; try discriminate.
      intros H. injection H as H _. subst c. discriminate.
Qed.

Lemma span_digits_run (run rest : jsstring) :
  forallb is_digit run = true ->
  match rest with c :: _ => is_digit c = false | [] => True end ->
  span_digits (run ++ rest) = (run, rest).
Proof.
  intros Hrun Hrest. induction run as [| c run IH].
  - cbn [app]. destruct rest as [| c rest]; [reflexivity|].
    cbn [span_digits]. now rewrite Hrest.
  - cbn [forallb] in Hrun. apply andb_prop in Hrun as [Hc Hrun].
    cbn [app span_digits]. now rewrite Hc, (IH Hrun).
Qed.

Lemma digits1_run (run rest : jsstring) :
  run <> [] -> forallb is_digit run = true ->
  match rest with c :: _ => is_digit c = false | [] => True end ->
  digits1 (run ++ rest) = Some (run, rest).
Proof.
  intros Hne Hrun Hrest. unfold digits1.
  rewrite span_digits_run by assumption. now destruct run.
Qed.

Lemma digits1_some (run rest : jsstring) :
  run <> [] -> forallb is_digit run = true ->
  digits1 (run ++ rest) <> None.
Proof.
  intros Hne Hrun. destruct run as [| c run]; [contradiction|].
  cbn [forallb] in Hrun. apply andb_prop in Hrun as [Hc _].
  unfold digits1. cbn [app span_digits]. rewrite Hc.
  now destruct (span_digits (run ++ rest)).
Qed.

Lemma version_core_shape (major minor patch rest : jsstring) :
  major <> [] -> minor <> [] -> patch <> [] ->
  forallb is_digit major = true -> forallb is_digit minor = true ->
  forallb is_digit patch = true ->
  version_core (major ++ units "." ++ minor ++ units "." ++ patch ++ rest)
  = Some (major, minor).
Proof.
  intros Hj Hn Hp Dj Dn Dp. unfold version_core.
  rewrite digits1_run by (auto; reflexivity).
  change (units ".") with [46%N]. cbn [app dot N.eqb Pos.eqb].
  rewrite digits1_run by (auto; reflexivity).
  cbn [app dot N.eqb Pos.eqb].
  pose proof (digits1_some patch rest Hp Dp) as Hsome.
  destruct (digits1 (patch ++ rest)); [reflexivity | contradiction].
Qed.

(** The four ways the optional parts of the pattern can be present. *)
Definition version_prefix (prefix : jsstring) : Prop :=
  exists p, In p [units ""; units "v"; units "vrti-"; units "vrti-v"] /\
            map fold_case prefix = map fold_case p.

Lemma strip_ci_units (p q rest : jsstring) :
  map fold_case q = map fold_case p ->
  strip_ci p (q ++ rest) = Some rest.
Proof.
  revert q. induction p as [| a p IH]; intros q Hq.
  - destruct q; [reflexivity | discriminate].
  - destruct q as [| c q]; [discriminate|].
    cbn [map] in Hq. injection Hq as Hc Hq.
    cbn [app strip_ci]. rewrite Hc, N.eqb_refl. now apply IH.
Qed.

Lemma strip_ci_digit (p : jsstring) (c : N) (s : jsstring) :
  is_digit c = true ->
  match p with a :: _ => is_digit (fold_case a) = false | [] => False end ->
  strip_ci p (c :: s) = None.
Proof.
  intros Hc Hp. destruct p as [| a p]; [contradiction|].
  cbn [strip_ci].
  destruct (N.eqb_spec (fold_case c) (fold_case a)) as [He | _];
    [|reflexivity].
  assert (Hfc : fold_case c = c).
  { unfold fold_case, is_digit, between in *.
    destruct (N.leb_spec 97 c); [|reflexivity].
    destruct (N.leb_spec 48 c), (N.leb_spec c 57); try discriminate. lia. }
  rewrite <- He, Hfc, Hc in Hp. discriminate.
Qed.

(** X28: a tag that starts with a version, three runs of digits joined
    by dots, after nothing, "v", "vrti-" or "vrti-v" in any case, is
    grouped under "major.minor": the patch number and whatever follows
    it play no part. *)
Theorem keyOf_version
    (prefix major minor patch rest : jsstring)
    (name body : option jsstring) :
  version_prefix prefix ->
  major <> [] -> minor <> [] -> patch <> [] ->
  forallb is_digit major = true -> forallb is_digit minor = true ->
  forallb is_digit patch = true ->
  keyOf (mkRelease
           (prefix ++ major ++ units "." ++ minor ++ units "." ++ patch
                   ++ rest)
           name body)
  = major ++ units "." ++ minor.
Proof.
  intros (p & Hp & Hfold) Hj Hn Hpa Dj Dn Dp.
  pose proof (version_core_shape major minor patch rest Hj Hn Hpa Dj Dn Dp)
    as Hcore.
  set (v := major ++ units "." ++ minor ++ units "." ++ patch ++ rest) in *.
  assert (Hhead : exists c v', v = c :: v' /\ is_digit c = true).
  { destruct major as [| c major]; [contradiction|].
    cbn [forallb] in Dj. apply andb_prop in Dj as [Hc _].
    exists c, (major ++ units "." ++ minor ++ units "." ++ patch ++ rest).
    split; [reflexivity | exact Hc]. }
  destruct Hhead as (c & v' & Hv & Hc).
  assert (Hv_opt : optional (units "v") version_core v = Some (major, minor)).
  { unfold optional. rewrite Hv, strip_ci_digit by (auto; reflexivity).
    now rewrite <- Hv. }
  assert (Hhere : match_here (prefix ++ v) = Some (major, minor)).
  { unfold match_here.
    cbn [In] in Hp. destruct Hp as [<- | [<- | [<- | [<- | []]]]].
    - destruct prefix; [|discriminate]. cbn [app].
      unfold optional at 1. rewrite Hv, strip_ci_digit by (auto; reflexivity).
      now rewrite <- Hv.
    - unfold optional at 1.
      destruct (strip_ci (units "vrti-") (prefix ++ v)) as [s' |] eqn:Hs.
      + exfalso. destruct prefix as [| a [| b prefix]]; try discriminate.
        cbn [map] in Hfold. injection Hfold as Ha.
        rewrite Hv in Hs.
        change (units "vrti-") with [118; 114; 116; 105; 45]%N in Hs.
        cbn [app strip_ci] in Hs.
        destruct (fold_case a =? fold_case 118)%N; [|discriminate].
        assert (Hfc : fold_case c = c).
        { unfold fold_case, is_digit, between in *.
          destruct (N.leb_spec 97 c); [|reflexivity].
          destruct (N.leb_spec 48 c), (N.leb_spec c 57);
            try discriminate. lia. }
        destruct (N.eqb_spec (fold_case c) (fold_case 114))
          as [He | _]; [|discriminate].
        rewrite Hfc in He. subst c. discriminate.
      + unfold optional. rewrite (strip_ci_units _ _ _ Hfold).
        now rewrite Hcore.
    - unfold optional at 1. rewrite (strip_ci_units _ _ _ Hfold).
      now rewrite Hv_opt.
    - assert (Hsplit : exists q1 q2,
                prefix = q1 ++ q2 /\
                map fold_case q1 = map fold_case (units "vrti-") /\
                map fold_case q2 = map fold_case (units "v")).
      { do 6 (destruct prefix as [| ? prefix]; try discriminate).
        destruct prefix; [|discriminate].
        cbn [map] in Hfold. injection Hfold as H1 H2 H3 H4 H5 H6.
        exists [n; n0; n1; n2; n3], [n4]. repeat split.
        - cbn [map]. now rewrite H1, H2, H3, H4, H5.
        - cbn [map]. now rewrite H6. }
      destruct Hsplit as (q1 & q2 & -> & H1 & H2).
      unfold optional at 1. rewrite <- app_assoc.
      rewrite (strip_ci_units _ _ _ H1).
      unfold optional at 1. rewrite (strip_ci_units _ _ _ H2).
      now rewrite Hcore. }
  unfold keyOf. cbn [tag_name].
  destruct (prefix ++ v) as [| x s] eqn:Hs;
    cbn [exec]; now rewrite Hhere.
Qed.

Lemma jsstring_eqb_spec (a b : jsstring) : reflect (a = b) (jsstring_eqb a b).
Proof.
  unfold jsstring_eqb. destruct (list_eq_dec N.eq_dec a b); now constructor.
Qed.

Lemma members_push (key k : jsstring) (r : Release)
    (groups : list (jsstring * list Release)) :
  members key (push k r groups)
  = members key groups ++ (if jsstring_eqb k key then [r] else []).
Proof.
  induction groups as [| [k' rs] rest IH].
  - cbn [push members]. now destruct (jsstring_eqb k key).
  - cbn [push]. destruct (jsstring_eqb_spec k' k) as [-> | Hk].
    + cbn [members]. destruct (jsstring_eqb k key);
        [reflexivity | now rewrite app_nil_r].
    + cbn [members]. destruct (jsstring_eqb_spec k' key) as [-> | Hkey].
      * destruct (jsstring_eqb_spec k key) as [-> | _];
          [contradiction | now rewrite app_nil_r].
      * exact IH.
Qed.

Lemma keys_push (k : jsstring) (r : Release)
    (groups : list (jsstring * list Release)) :
  NoDup (map fst groups) ->
  NoDup (map fst (push k r groups)) /\
  (forall key, In key (map fst (push k r groups)) <->
               key = k \/ In key (map fst groups)).
Proof.
  induction groups as [| [k' rs] rest IH]; intros Hnd.
  - cbn [push map fst]. split; [repeat constructor; intros []|].
    intros key. cbn [In]. intuition.
  - cbn [push]. inversion Hnd as [| ? ? Hnotin Hrest]; subst.
    destruct (jsstring_eqb_spec k' k) as [-> | Hk].
    + cbn [map fst]. split; [exact Hnd|]. intros key. cbn [In]. intuition.
    + destruct (IH Hrest) as [IHnd IHin]. cbn [map fst]. split.
      * constructor; [|exact IHnd]. rewrite IHin. intuition.
      * intros key. cbn [In]. rewrite IHin. intuition.
Qed.

Lemma group_members (key : jsstring) (releases : list Release) :
  forall acc,
    members key (fold_left (fun groups r => push (keyOf r) r groups)
                           releases acc)
    = members key acc
      ++ filter (fun r => jsstring_eqb (keyOf r) key) releases.
Proof.
  induction releases as [| r releases IH]; intros acc.
  - cbn [fold_left filter]. now rewrite app_nil_r.
  - cbn [fold_left filter]. rewrite IH, members_push, <- app_assoc.
    now destruct (jsstring_eqb (keyOf r) key).
Qed.

Lemma group_keys (releases : list Release) :
  forall acc,
    NoDup (map fst acc) ->
    NoDup (map fst (fold_left (fun groups r => push (keyOf r) r groups)
                              releases acc)).
Proof.
  induction releases as [| r releases IH]; intros acc Hnd; [exact Hnd|].
  cbn [fold_left]. apply IH. now apply keys_push.
Qed.

(** X29: the group of a key holds exactly the releases with that key, in
    the order the API listed them, so every release is written to one
    file and to one only; no key has two groups. *)
Theorem group_spec (releases : list Release) :
  (forall key,
     members key (group releases)
     = filter (fun r => jsstring_eqb (keyOf r) key) releases) /\
  NoDup (map fst (group releases)).
Proof.
  unfold group. split.
  - intros key. now rewrite group_members.
  - apply group_keys. constructor.
Qed.

(** The tags of the repository's releases look like this one. *)
Lemma keyOf_examples :
  keyOf (mkRelease (units "vrti-v0.2.6") None None) = units "0.2" /\
  keyOf (mkRelease (units "V1.10.0-beta") None None) = units "1.10" /\
  keyOf (mkRelease (units "nightly") None None) = units "other" /\
  keyOf (mkRelease (units "v1.2") None None) = units "other".
Proof. repeat split. Qed.

Lemma keyOf_version_witness :
  keyOf (mkRelease
           (units "VRTI-v" ++ units "0" ++ units "." ++ units "12"
              ++ units "." ++ units "3" ++ units "-rc1")
           None None)
  = units "0" ++ units "." ++ units "12".
Proof.
  apply keyOf_version; try discriminate; try reflexivity.
  exists (units "vrti-v"). split; [cbn [In]; auto | reflexivity].
Defined.

End ReleaseFacts.
